(** * Eureka client: registration lifecycle, endpoint ring and registry cache

    A shallow embedding of [src/EurekaClient.js] and [OAuth2Util] (the
    bearer-token helper).  JavaScript values are a small inductive type, the
    client object is a record, and every asynchronous call (HTTP, DNS, token
    request, timers) is a pending entry of the state that an event of the
    event loop resumes.  Each anonymous callback of the source is a named
    function here, and a pending entry records which one waits and the
    variables it captured.

    Numbers that the client computes with are doubles: a draw of
    [Math.random] is the rational that the double denotes, and a product is
    rounded to the nearest double before [Math.floor] sees it.  The two
    mappings of the cache are plain objects: a lookup reads the own keys
    first and then the members that every plain object inherits from
    [Object.prototype].

    What the model leaves out: the prototype chain of the objects of a parsed
    payload (the client reads them under fixed names, none of which
    [Object.prototype] has), a VIP address [__proto__] in a payload (storing
    under it replaces the prototype of the mapping; here it is a key like any
    other), most of the text that log lines interpolate, the body of the
    registration request, and [start], which only sequences [register] and
    [fetchRegistry] through the [async] library.  A callback of the caller is
    opaque: calling it is recorded in the trace. *)

From Stdlib Require Import ZArith QArith Qround Qpower String Ascii List Lia Lqa.
From Stdlib Require Import Permutation.
From stdpp Require Import base option list gmap strings pretty fin_maps.

Set Warnings "-register-all".
Local Open Scope string_scope.
Local Open Scope Z_scope.

(** ** JavaScript values *)

(** The values [JSON.parse] can return, plus [undefined].  Numbers are the
    integer-valued ones; an object is the list of its own properties, each key
    once. *)
Inductive value : Type :=
| VUndef
| VNull
| VBool (b : bool)
| VNum (n : Z)
| VStr (s : string)
| VArr (elems : list value)
| VObj (props : list (string * value)).

Inductive error : Type :=
| Error (msg : string)
| TypeError (msg : string)
| RangeError (msg : string)
| SyntaxError (msg : string).

(** Result of an expression that may throw. *)
Inductive res (A : Type) : Type :=
| Ok (a : A)
| Throw (e : error).
Arguments Ok {A} a.
Arguments Throw {A} e.

#[global] Instance res_ret : MRet res := @Ok.
#[global] Instance res_bind : MBind res := λ A B f r,
  match r with Ok a => f a | Throw e => Throw e end.

(** [if (v)], [!v], [a || b]: JavaScript truthiness. *)
Definition truthy (v : value) : bool :=
  match v with
  | VUndef | VNull => false
  | VBool b => b
  | VNum n => negb (n =? 0)
  | VStr s => negb (String.eqb s "")
  | VArr _ | VObj _ => true
  end.

(** [Array.prototype.join(",")] on already converted elements. *)
Fixpoint join_comma (l : list string) : string :=
  match l with
  | [] => ""
  | [s] => s
  | s :: rest => s ++ "," ++ join_comma rest
  end.

(** [String(v)], which is also the conversion of a computed property key
    ([obj[v] = ...]) and of the operand of a string concatenation. *)
Fixpoint to_string (v : value) : string :=
  match v with
  | VUndef => "undefined"
  | VNull => "null"
  | VBool true => "true"
  | VBool false => "false"
  | VNum n => pretty n
  | VStr s => s
  | VArr l =>
      join_comma
        (map (λ e, match e with VUndef | VNull => "" | _ => to_string e end) l)
  | VObj _ => "[object Object]"
  end.

Definition lookup_prop (k : string) (ps : list (string * value)) : value :=
  match find (λ p, String.eqb (fst p) k) ps with
  | Some p => snd p
  | None => VUndef
  end.

(** [v.k] for a data property.  Reading a property of [undefined] or [null]
    throws; a missing property reads as [undefined]. *)
Definition get_prop (v : value) (k : string) : res value :=
  match v with
  | VUndef => Throw (TypeError ("Cannot read property '" ++ k ++ "' of undefined"))
  | VNull => Throw (TypeError ("Cannot read property '" ++ k ++ "' of null"))
  | VObj ps => Ok (lookup_prop k ps)
  | VArr l => Ok (if String.eqb k "length" then VNum (Z.of_nat (length l)) else VUndef)
  | VStr s => Ok (if String.eqb k "length" then VNum (Z.of_nat (String.length s)) else VUndef)
  | VBool _ | VNum _ => Ok VUndef
  end.

(** [v[i]] for an array index. *)
Definition get_index (v : value) (i : nat) : res value :=
  match v with
  | VArr l => Ok (nth i l VUndef)
  | _ => get_prop v (pretty i)
  end.

(** [a === 'UP'] against a string literal. *)
Definition strict_eq_str (v : value) (s : string) : bool :=
  match v with VStr t => String.eqb t s | _ => false end.

(** ** The platform

    Library functions the client calls but does not define. *)
Record urlObject : Type := {
  protocol : option string;
  auth : option string;
  host : option string;
  hostname : option string;
  port : option string;
  pathname : option string;
}.

Class Platform : Type := {
  (** [String.prototype.toUpperCase] *)
  toUpperCase : string → string;
  (** [JSON.parse]; [None] when it throws a SyntaxError *)
  JSON_parse : string → option value;
  (** [url.parse] and [url.format] of Node *)
  url_parse : string → urlObject;
  url_format : urlObject → string;
}.

(** ** A state monad with exceptions

    A thrown exception keeps the mutations made before it. *)
Definition ST (S A : Type) : Type := S → res A * S.

#[global] Instance ST_ret {S} : MRet (ST S) := λ A a s, (Ok a, s).
#[global] Instance ST_bind {S} : MBind (ST S) := λ A B f m s,
  match m s with
  | (Ok a, s') => f a s'
  | (Throw e, s') => (Throw e, s')
  end.

Definition throw {S A} (e : error) : ST S A := λ s, (Throw e, s).
Definition lift {S A} (r : res A) : ST S A := λ s, (r, s).
Definition gets {S A} (f : S → A) : ST S A := λ s, (Ok (f s), s).
Definition modify {S} (f : S → S) : ST S unit := λ s, (Ok tt, f s).

(** [l.forEach(f)] *)
Fixpoint forEach {S A} (l : list A) (f : A → ST S unit) : ST S unit :=
  match l with
  | [] => mret tt
  | x :: rest => f x ;; forEach rest f
  end.

(** [l.filter(p)] for a predicate that may throw. *)
Fixpoint filter_res {A} (p : A → res bool) (l : list A) : res (list A) :=
  match l with
  | [] => Ok []
  | x :: rest =>
      b ← p x;
      kept ← filter_res p rest;
      Ok (if b : bool then x :: kept else kept)
  end.

(** [v.filter(p)]: only arrays have the method. *)
Definition array_filter (v : value) (p : value → res bool) : res (list value) :=
  match v with
  | VArr l => filter_res p l
  | VUndef | VNull => Throw (TypeError "Cannot read property 'filter'")
  | _ => Throw (TypeError "filter is not a function")
  end.

(** ** The endpoint ring *)

(** [config.eureka.serviceUrl]; [None] is an [undefined] slot. *)
Definition ring : Type := list (option string).

(** [Array.prototype.shift] *)
Definition shift (r : ring) : option string * ring :=
  match r with
  | [] => (None, [])
  | u :: rest => (u, rest)
  end.

(** [Array.prototype.push] *)
Definition push (r : ring) (u : option string) : ring := (r ++ [u])%list.

(** [serviceUrl.push(serviceUrl.shift())] *)
Definition rotate (r : ring) : ring :=
  let '(u, rest) := shift r in push rest u.

(** [get currentServiceUrl]: [serviceUrl[0]] *)
Definition ring_current (r : ring) : option string :=
  match r with
  | [] => None
  | u :: _ => u
  end.

(** The ring check of [validateConfig]: [serviceUrl.length === 0] throws. *)
Definition validate_serviceUrl (r : ring) : bool :=
  negb (Nat.eqb (length r) 0).

(** ** The registry cache *)

(** [{app: {}, vip: {}}]: own properties of the two objects.  [transformApp]
    stores one and the same array under a key of each; nothing mutates a
    stored array afterwards, so each mapping holds its value. *)
Record Cache : Type := {
  cache_app : gmap string (list value);
  cache_vip : gmap string (list value);
}.

Definition empty_cache : Cache := {| cache_app := ∅; cache_vip := ∅ |}.

(** [cache.app[k] = l] and [cache.vip[k] = l] *)
Definition set_app (k : string) (l : list value) : ST Cache unit :=
  modify (λ c, {| cache_app := <[k := l]> (cache_app c); cache_vip := cache_vip c |}).
Definition set_vip (k : string) (l : list value) : ST Cache unit :=
  modify (λ c, {| cache_app := cache_app c; cache_vip := <[k := l]> (cache_vip c) |}).

(** ** Configuration and client state *)

(** The fields of [this.config] the modelled methods read. *)
Record Config : Type := {
  (** [config.eureka.useDns] *)
  useDns : bool;
  (** [config.eureka.ec2Region]; [None] when not set *)
  ec2Region : option string;
  (** [config.eureka.filterUpInstances] *)
  filterUpInstances : bool;
  (** [config.eureka.heartbeatInterval], [config.eureka.registryFetchInterval] *)
  heartbeatInterval : Z;
  registryFetchInterval : Z;
  (** [get oAuth2Enabled]: [config.oauth2 && config.oauth2.clientCredentials] *)
  oAuth2Enabled : bool;
  (** [config.instance.app] and [get instanceId] *)
  instance_app : string;
  instanceId : string;
}.

(** The callbacks handed to the client: [noop], a function of the caller
    (opaque, named by a number), and the closure of [startRegistryFetches]. *)
Inductive callback : Type :=
| Noop
| UserCallback (id : nat)
| WarnOnFetchError.

Inductive level : Type := Debug | Info | Warn | LogError.

(** What the client does to the outside, newest first. *)
Inductive effect : Type :=
| Log (l : level) (msg : string)
| Emit (signal : string)
| Invoke (cb : nat) (err : option error)
| Uncaught (e : error).

Inductive timer_action : Type :=
| SlowRegisterWarning
| Reregister (cb : callback)
| HeartbeatTick
| RegistryFetchTick.

Record timer : Type := {
  (** [setInterval] (true) or [setTimeout] (false) *)
  t_repeat : bool;
  t_delay : Z;
  t_action : timer_action;
}.

Inductive http_method : Type := GET | POST | PUT | DELETE.

(** [requestData]; the body of a registration (the instance descriptor) is
    left out. *)
Record request : Type := {
  method : http_method;
  url : string;
  headers : option (gmap string string);
}.

(** The closure that [lookupCurrentEurekaHost] receives, by the method that
    built it, with the variables it captured. *)
Inductive caller : Type :=
| ForRegister (cb : callback) (connectionTimeout : nat)
| ForDeregister (cb : callback)
| ForRenew
| ForFetchRegistry (cb : callback).

Inductive dns_stage : Type := RegionLookup | HostLookup.

(** The two token closures of [lookupCurrentEurekaHost]: the one of the DNS
    branch captured [parsed], the other reads the ring when it runs. *)
Inductive token_resume : Type :=
| FormatParsed (parsed : urlObject)
| CurrentUrl.

(** A call in flight and the closure that its answer resumes. *)
Inductive pending_call : Type :=
| HttpCall (req : request) (k : caller)
| DnsCall (name : string) (stage : dns_stage) (k : caller)
| TokenCall (resume : token_resume) (k : caller).

Record state : Type := {
  (** [config.eureka.serviceUrl] *)
  serviceUrl : ring;
  (** [config.instance.status] *)
  instance_status : option string;
  (** [this.cache] *)
  cache : Cache;
  (** [this.heartbeat], [this.reregisterTimeout], [this.registryFetch] *)
  heartbeat : option nat;
  reregisterTimeout : option nat;
  registryFetch : option nat;
  (** the active timers of the event loop *)
  timers : gmap nat timer;
  next_timer : nat;
  (** the calls in flight *)
  pending : gmap nat pending_call;
  next_call : nat;
  (** [this.oAuth2Util.token] *)
  oauth_token : value;
  (** the successive results of [Math.random()], each a double of [0, 1) *)
  random_source : nat → Q;
  random_draws : nat;
  trace : list effect;
}.

Definition set_serviceUrl (r : ring) (st : state) : state :=
  {| serviceUrl := r; instance_status := instance_status st; cache := cache st;
     heartbeat := heartbeat st; reregisterTimeout := reregisterTimeout st;
     registryFetch := registryFetch st; timers := timers st;
     next_timer := next_timer st; pending := pending st; next_call := next_call st;
     oauth_token := oauth_token st; random_source := random_source st;
     random_draws := random_draws st; trace := trace st |}.

Definition set_instance_status (s : option string) (st : state) : state :=
  {| serviceUrl := serviceUrl st; instance_status := s; cache := cache st;
     heartbeat := heartbeat st; reregisterTimeout := reregisterTimeout st;
     registryFetch := registryFetch st; timers := timers st;
     next_timer := next_timer st; pending := pending st; next_call := next_call st;
     oauth_token := oauth_token st; random_source := random_source st;
     random_draws := random_draws st; trace := trace st |}.

Definition set_cache (c : Cache) (st : state) : state :=
  {| serviceUrl := serviceUrl st; instance_status := instance_status st; cache := c;
     heartbeat := heartbeat st; reregisterTimeout := reregisterTimeout st;
     registryFetch := registryFetch st; timers := timers st;
     next_timer := next_timer st; pending := pending st; next_call := next_call st;
     oauth_token := oauth_token st; random_source := random_source st;
     random_draws := random_draws st; trace := trace st |}.

Definition set_heartbeat (h : option nat) (st : state) : state :=
  {| serviceUrl := serviceUrl st; instance_status := instance_status st; cache := cache st;
     heartbeat := h; reregisterTimeout := reregisterTimeout st;
     registryFetch := registryFetch st; timers := timers st;
     next_timer := next_timer st; pending := pending st; next_call := next_call st;
     oauth_token := oauth_token st; random_source := random_source st;
     random_draws := random_draws st; trace := trace st |}.

Definition set_reregisterTimeout (h : option nat) (st : state) : state :=
  {| serviceUrl := serviceUrl st; instance_status := instance_status st; cache := cache st;
     heartbeat := heartbeat st; reregisterTimeout := h;
     registryFetch := registryFetch st; timers := timers st;
     next_timer := next_timer st; pending := pending st; next_call := next_call st;
     oauth_token := oauth_token st; random_source := random_source st;
     random_draws := random_draws st; trace := trace st |}.

Definition set_registryFetch (h : option nat) (st : state) : state :=
  {| serviceUrl := serviceUrl st; instance_status := instance_status st; cache := cache st;
     heartbeat := heartbeat st; reregisterTimeout := reregisterTimeout st;
     registryFetch := h; timers := timers st;
     next_timer := next_timer st; pending := pending st; next_call := next_call st;
     oauth_token := oauth_token st; random_source := random_source st;
     random_draws := random_draws st; trace := trace st |}.

Definition set_timers (ts : gmap nat timer) (n : nat) (st : state) : state :=
  {| serviceUrl := serviceUrl st; instance_status := instance_status st; cache := cache st;
     heartbeat := heartbeat st; reregisterTimeout := reregisterTimeout st;
     registryFetch := registryFetch st; timers := ts;
     next_timer := n; pending := pending st; next_call := next_call st;
     oauth_token := oauth_token st; random_source := random_source st;
     random_draws := random_draws st; trace := trace st |}.

Definition set_pending (ps : gmap nat pending_call) (n : nat) (st : state) : state :=
  {| serviceUrl := serviceUrl st; instance_status := instance_status st; cache := cache st;
     heartbeat := heartbeat st; reregisterTimeout := reregisterTimeout st;
     registryFetch := registryFetch st; timers := timers st;
     next_timer := next_timer st; pending := ps; next_call := n;
     oauth_token := oauth_token st; random_source := random_source st;
     random_draws := random_draws st; trace := trace st |}.

Definition set_oauth_token (t : value) (st : state) : state :=
  {| serviceUrl := serviceUrl st; instance_status := instance_status st; cache := cache st;
     heartbeat := heartbeat st; reregisterTimeout := reregisterTimeout st;
     registryFetch := registryFetch st; timers := timers st;
     next_timer := next_timer st; pending := pending st; next_call := next_call st;
     oauth_token := t; random_source := random_source st;
     random_draws := random_draws st; trace := trace st |}.

Definition set_random_draws (n : nat) (st : state) : state :=
  {| serviceUrl := serviceUrl st; instance_status := instance_status st; cache := cache st;
     heartbeat := heartbeat st; reregisterTimeout := reregisterTimeout st;
     registryFetch := registryFetch st; timers := timers st;
     next_timer := next_timer st; pending := pending st; next_call := next_call st;
     oauth_token := oauth_token st; random_source := random_source st;
     random_draws := n; trace := trace st |}.

Definition record (e : effect) (st : state) : state :=
  {| serviceUrl := serviceUrl st; instance_status := instance_status st; cache := cache st;
     heartbeat := heartbeat st; reregisterTimeout := reregisterTimeout st;
     registryFetch := registryFetch st; timers := timers st;
     next_timer := next_timer st; pending := pending st; next_call := next_call st;
     oauth_token := oauth_token st; random_source := random_source st;
     random_draws := random_draws st; trace := e :: trace st |}.

(** ** Primitives of the runtime *)

Definition log (l : level) (msg : string) : ST state unit := modify (record (Log l msg)).
Definition emit (signal : string) : ST state unit := modify (record (Emit signal)).

(** Calling a callback with [(err)]. *)
Definition invoke (cb : callback) (err : option error) : ST state unit :=
  match cb with
  | Noop => mret tt
  | UserCallback id => modify (record (Invoke id err))
  | WarnOnFetchError =>
      match err with
      | Some _ => log Warn "Error fetching registries"
      | None => mret tt
      end
  end.

(** [setTimeout] / [setInterval]: a fresh handle. *)
Definition set_timer (t : timer) : ST state nat := λ st,
  (Ok (next_timer st), set_timers (<[next_timer st := t]> (timers st)) (S (next_timer st)) st).

Definition setTimeout (a : timer_action) (delay : Z) : ST state nat :=
  set_timer {| t_repeat := false; t_delay := delay; t_action := a |}.
Definition setInterval (a : timer_action) (delay : Z) : ST state nat :=
  set_timer {| t_repeat := true; t_delay := delay; t_action := a |}.

(** [clearTimeout(h)] / [clearInterval(h)]; an [undefined] handle clears
    nothing. *)
Definition clear_timer (h : option nat) : ST state unit :=
  match h with
  | Some id => modify (λ st, set_timers (delete id (timers st)) (next_timer st) st)
  | None => mret tt
  end.

(** Starting an asynchronous call whose answer resumes [p]. *)
Definition call_async (p : pending_call) : ST state unit :=
  modify (λ st, set_pending (<[next_call st := p]> (pending st)) (S (next_call st)) st).

(** [Math.random()]: the next draw, a double taken as the rational it
    denotes. *)
Definition Math_random : ST state Q := λ st,
  (Ok (random_source st (random_draws st)), set_random_draws (S (random_draws st)) st).

(** *** Doubles

    The result of an arithmetic operation on doubles is the double nearest to
    the exact result, ties going to the even significand (IEEE 754 binary64,
    the only rounding JavaScript has).  Values are far below the overflow
    threshold here. *)

Definition pow2 (e : Z) : Q := (2 ^ e)%Q.

(** The binary exponent of a positive rational [a/b]: the [e] with
    [2^e <= a/b < 2^(e+1)], one of the two candidates that the bit lengths of
    [a] and [b] leave. *)
Definition binary_exponent (x : Q) : Z :=
  let e := Z.log2 (Qnum x) - Z.log2 (Zpos (Qden x)) in
  if Qle_bool (pow2 e) x then e else e - 1.

(** The nearest integer, a tie going to the even one. *)
Definition round_half_even (y : Q) : Z :=
  let f := Qfloor y in
  match (y - inject_Z f ?= 1 # 2)%Q with
  | Lt => f
  | Gt => f + 1
  | Eq => if Z.even f then f else f + 1
  end.

(** The gap between neighbouring doubles around a positive [x]: a significand
    has 52 bits after the leading one, and below the smallest normal exponent,
    -1022, the gap stays that of the subnormal numbers. *)
Definition ulp (x : Q) : Q := pow2 (Z.max (binary_exponent x) (-1022) - 52).

(** The double nearest to [x]. *)
Definition round_double (x : Q) : Q :=
  match (x ?= 0)%Q with
  | Eq => 0
  | Gt => inject_Z (round_half_even (x / ulp x)) * ulp x
  | Lt => - (inject_Z (round_half_even (- x / ulp (- x))) * ulp (- x))
  end.

(** [x] is the value of a double. *)
Definition is_double (x : Q) : Prop := (round_double x == x)%Q.

(** [Math.floor(r * n)] for a double [r] and an integer [n] that a double
    holds exactly: the product is rounded, then floored. *)
Definition floor_scaled (r : Q) (n : Z) : Z := Qfloor (round_double (r * inject_Z n)).

(** A string or [undefined] inside a template literal or a concatenation. *)
Definition js_str (s : option string) : string := default "undefined" s.

(** *** Plain objects as mappings

    [{}] has no own key, and reads every member of [Object.prototype] under
    its name.  Each member is listed with what its [length] reads as: the
    number of declared parameters of a function ([constructor] is [Object]),
    and nothing for [__proto__], which reads as the prototype object. *)
Definition Object_prototype : list (string * option Z) :=
  [ ("constructor", Some 1); ("hasOwnProperty", Some 1); ("isPrototypeOf", Some 1);
    ("propertyIsEnumerable", Some 1); ("toLocaleString", Some 0); ("toString", Some 0);
    ("valueOf", Some 0); ("__defineGetter__", Some 2); ("__defineSetter__", Some 2);
    ("__lookupGetter__", Some 1); ("__lookupSetter__", Some 1); ("__proto__", None) ].

Definition inherited (key : string) : option (option Z) :=
  snd <$> find (λ p, String.eqb (fst p) key) Object_prototype.

(** What [obj[key]] reads in a mapping from keys to instance lists: the list
    stored under the own key, or the inherited member of that name. *)
Inductive looked_up : Type :=
| Instances (l : list value)
| Inherited (key : string).

(** [obj[key]], [None] for [undefined]. *)
Definition read_member (obj : gmap string (list value)) (key : string)
  : option looked_up :=
  match obj !! key with
  | Some l => Some (Instances l)
  | None =>
      match inherited key with
      | Some _ => Some (Inherited key)
      | None => None
      end
  end.

(** [v.length === 0] *)
Definition length_is_zero (v : looked_up) : bool :=
  match v with
  | Instances l => Nat.eqb (length l) 0
  | Inherited key =>
      match inherited key with
      | Some (Some 0) => true
      | _ => false
      end
  end.

(** ** The client *)

Inductive http_reply : Type :=
| HttpError (e : error)
| HttpResponse (statusCode : Z) (body : string).

(** [dns.resolveTxt] answers [(err)] or [(null, records)]. *)
Inductive dns_reply : Type :=
| DnsError (e : error)
| DnsRecords (records : list (list string)).

(** [oauth2.clientCredentials.getToken] answers [(error)] or [(null, result)];
    [TokenResult] carries [oauth2.accessToken.create(result).token]. *)
Inductive token_reply : Type :=
| TokenError (e : error)
| TokenResult (token : value).

(** [!error && response.statusCode === code] *)
Definition status_is (r : http_reply) (code : Z) : bool :=
  match r with
  | HttpError _ => false
  | HttpResponse statusCode _ => statusCode =? code
  end.

(** The [body] argument of the callback, [undefined] after an error. *)
Definition reply_body (r : http_reply) : option string :=
  match r with
  | HttpError _ => None
  | HttpResponse _ body => Some body
  end.

Section Client.
Context {P : Platform} (cfg : Config).

(** [validateInstance] *)
Definition validateInstance (instance : value) : res bool :=
  if negb (filterUpInstances cfg) then Ok true
  else status ← get_prop instance "status"; Ok (strict_eq_str status "UP").

(** [name.toUpperCase()]: a method of strings only. *)
Definition call_toUpperCase (v : value) : res string :=
  match v with
  | VStr s => Ok (toUpperCase s)
  | VUndef | VNull => Throw (TypeError "Cannot read property 'toUpperCase'")
  | _ => Throw (TypeError "toUpperCase is not a function")
  end.

(** [transformApp(app, cache)] *)
Definition transformApp (app : value) : ST Cache unit :=
  instance ← lift (get_prop app "instance");
  len ← lift (get_prop instance "length");
  if truthy len then
    instances ← lift (array_filter instance validateInstance);
    name ← lift (get_prop app "name");
    key ← lift (call_toUpperCase name);
    set_app key instances;;
    first ← lift (get_index instance 0);
    vipAddress ← lift (get_prop first "vipAddress");
    set_vip (to_string vipAddress) instances
  else
    valid ← lift (validateInstance instance);
    if valid : bool then
      let instances := [instance] in
      vipAddress ← lift (get_prop instance "vipAddress");
      set_vip (to_string vipAddress) instances;;
      name ← lift (get_prop app "name");
      key ← lift (call_toUpperCase name);
      set_app key instances
    else mret tt.

(** The value of [newCache] in [transformRegistry] once every application
    went through [transformApp]; an exception on the way leaves it
    unreachable. *)
Definition build_cache (application : value) : res Cache :=
  let fill :=
    match application with
    | VArr apps => forEach apps transformApp
    | _ => transformApp application
    end in
  match fill empty_cache with
  | (Ok _, newCache) => Ok newCache
  | (Throw e, _) => Throw e
  end.

(** [transformRegistry] *)
Definition transformRegistry (registry : value) : ST state unit :=
  if negb (truthy registry) then log Warn "Unable to transform empty registry"
  else
    applications ← lift (get_prop registry "applications");
    application ← lift (get_prop applications "application");
    if negb (truthy application) then mret tt
    else
      newCache ← lift (build_cache application);
      modify (set_cache newCache).

(** [get currentServiceUrl] *)
Definition currentServiceUrl : ST state (option string) :=
  gets (λ st, ring_current (serviceUrl st)).

(** [rotateCurrentServiceUrl] *)
Definition rotateCurrentServiceUrl : ST state unit :=
  modify (λ st, set_serviceUrl (rotate (serviceUrl st)) st).

(** [startHeartbeats], [stopHeartbeats] *)
Definition startHeartbeats : ST state unit :=
  h ← setInterval HeartbeatTick (heartbeatInterval cfg);
  modify (set_heartbeat (Some h)).

Definition stopHeartbeats : ST state unit :=
  h ← gets heartbeat; clear_timer h.

(** [setAuthorizationInHeader] *)
Definition setAuthorizationInHeader (requestData : request) (token : value)
  : res request :=
  if negb (truthy token) then Ok requestData
  else
    access_token ← get_prop token "access_token";
    Ok {| method := method requestData; url := url requestData;
          headers := Some (<["Authorization" := "Bearer " ++ to_string access_token]>
                             (default ∅ (headers requestData))) |}.

(** The callbacks given to [lookupCurrentEurekaHost] by [register],
    [deregister], [renew] and [fetchRegistry], up to the HTTP call. *)
Definition host_resolved (k : caller) (err : option error)
    (eurekaUrl : option string) (token : value) : ST state unit :=
  match k with
  | ForRegister callback _ =>
      log Info ("Attempting to register with eureka at '" ++ js_str eurekaUrl ++ "'.");;
      match err with
      | Some e => invoke callback (Some e)
      | None =>
          requestData ← lift (setAuthorizationInHeader
            {| method := POST; url := js_str eurekaUrl ++ instance_app cfg;
               headers := None |} token);
          call_async (HttpCall requestData k)
      end
  | ForDeregister callback =>
      match err with
      | Some e => invoke callback (Some e)
      | None =>
          requestData ← lift (setAuthorizationInHeader
            {| method := DELETE;
               url := js_str eurekaUrl ++ instance_app cfg ++ "/" ++ instanceId cfg;
               headers := None |} token);
          call_async (HttpCall requestData k)
      end
  | ForRenew =>
      match err with
      | Some e => log Warn "eureka heartbeat FAILED, will retry"
      | None =>
          requestData ← lift (setAuthorizationInHeader
            {| method := PUT;
               url := js_str eurekaUrl ++ instance_app cfg ++ "/" ++ instanceId cfg;
               headers := None |} token);
          call_async (HttpCall requestData k)
      end
  | ForFetchRegistry callback =>
      match err with
      | Some e => invoke callback (Some e)
      | None =>
          requestData ← lift (setAuthorizationInHeader
            {| method := GET; url := js_str eurekaUrl;
               headers := Some {["Accept" := "application/json"]} |} token);
          call_async (HttpCall requestData k)
      end
  end.

(** [url.parse(this.currentServiceUrl)]; [url.parse(undefined)] throws. *)
Definition parse_current : ST state urlObject :=
  current ← currentServiceUrl;
  match current with
  | Some u => mret (url_parse u)
  | None => throw (TypeError "Parameter 'url' must be a string, not undefined")
  end.

Definition with_host (parsed : urlObject) (h : option string) : urlObject :=
  {| protocol := protocol parsed; auth := auth parsed; host := h;
     hostname := hostname parsed; port := port parsed; pathname := pathname parsed |}.

(** [OAuth2Util.getTokenForClientCredentials]: the request, then its
    callback, which hands [(error, this.token)] on. *)
Definition getTokenForClientCredentials (resume : token_resume) (k : caller)
  : ST state unit :=
  call_async (TokenCall resume k).

Definition token_received (r : token_reply) : ST state (option error * value) :=
  match r with
  | TokenError e =>
      log Warn "Error occurred while getting Access Token via OAuth2 Client Credentials";;
      token ← gets oauth_token;
      mret (Some e, token)
  | TokenResult created =>
      modify (set_oauth_token created);;
      log Debug "Access Token has been fetched using Client Credentials";;
      token ← gets oauth_token;
      mret (None, token)
  end.

(** The token callbacks of [lookupCurrentEurekaHost]. *)
Definition token_resolved (resume : token_resume) (k : caller)
    (error : option error) (token : value) : ST state unit :=
  match error with
  | Some _ => log LogError "An error in the request occurred."
  | None => mret tt
  end;;
  match resume with
  | FormatParsed parsed => host_resolved k None (Some (url_format parsed)) token
  | CurrentUrl =>
      current ← currentServiceUrl;
      host_resolved k None current token
  end.

(** The callback that [lookupCurrentEurekaHost] gives to
    [locateEurekaHostUsingDns]; it does not read [err]. *)
Definition dns_located (k : caller) (err : option error)
    (resolvedHost : option string) : ST state unit :=
  parsed ← parse_current;
  let parsed := with_host parsed resolvedHost in
  if oAuth2Enabled cfg then getTokenForClientCredentials (FormatParsed parsed) k
  else host_resolved k None (Some (url_format parsed)) VNull.

(** [!ec2Region] *)
Definition region_missing (r : option string) : bool :=
  match r with
  | None => true
  | Some s => String.eqb s ""
  end.

(** [locateEurekaHostUsingDns], up to the first TXT lookup. *)
Definition locateEurekaHostUsingDns (k : caller) : ST state unit :=
  parsed ← parse_current;
  if region_missing (ec2Region cfg) then
    dns_located k
      (Some (Error ("EC2 region was undefined. " ++
         "config.eureka.ec2Region must be set to resolve Eureka using DNS records.")))
      None
  else
    call_async (DnsCall ("txt." ++ js_str (ec2Region cfg) ++ "." ++
                         default "null" (host parsed)) RegionLookup k).

(** The callbacks of the two [dns.resolveTxt] calls. *)
Definition region_resolved (k : caller) (r : dns_reply) : ST state unit :=
  match r with
  | DnsError err =>
      dns_located k
        (Some (Error ("Error resolving eureka server list for region [" ++
           js_str (ec2Region cfg) ++ "] using DNS"))) None
  | DnsRecords addresses =>
      r ← Math_random;
      match addresses with
      | [] => throw (TypeError "Cannot read property 'length' of undefined")
      | first :: _ =>
          let random := floor_scaled r (Z.of_nat (length first)) in
          call_async (DnsCall ("txt." ++ js_str (first !! Z.to_nat random)) HostLookup k)
      end
  end.

Definition host_lookup_resolved (k : caller) (r : dns_reply) : ST state unit :=
  match r with
  | DnsError resolveErr =>
      log Warn "Failed to locate DNS record for Eureka";;
      dns_located k (Some (Error "Error locating eureka server using DNS")) None;;
      log Debug "Found Eureka Server @ ";;
      throw (TypeError "undefined is not iterable")
  | DnsRecords results =>
      log Debug "Found Eureka Server @ ";;
      dns_located k None (head (concat results))
  end.

(** [lookupCurrentEurekaHost] *)
Definition lookupCurrentEurekaHost (k : caller) : ST state unit :=
  if useDns cfg then locateEurekaHostUsingDns k
  else if oAuth2Enabled cfg then getTokenForClientCredentials CurrentUrl k
  else
    current ← currentServiceUrl;
    host_resolved k None current VNull.

(** [register] *)
Definition register (callback : callback) : ST state unit :=
  modify (set_instance_status (Some "UP"));;
  connectionTimeout ← setTimeout SlowRegisterWarning 10000;
  lookupCurrentEurekaHost (ForRegister callback connectionTimeout).

(** [deregister] *)
Definition deregister (callback : callback) : ST state unit :=
  lookupCurrentEurekaHost (ForDeregister callback).

(** [renew] *)
Definition renew : ST state unit := lookupCurrentEurekaHost ForRenew.

(** [fetchRegistry] *)
Definition fetchRegistry (callback : callback) : ST state unit :=
  lookupCurrentEurekaHost (ForFetchRegistry callback).

(** The callback of [request.post] in [register]. *)
Definition register_response (callback : callback) (connectionTimeout : nat)
    (r : http_reply) : ST state unit :=
  clear_timer (Some connectionTimeout);;
  if status_is r 204 then
    log Info "registered with eureka: ";;
    emit "registered";;
    startHeartbeats;;
    invoke callback None
  else
    match r with
    | HttpError error =>
        log Warn "Error registering with eureka. Trying next server in list";;
        rotateCurrentServiceUrl;;
        r ← Math_random;
        let backoff := floor_scaled r 2000 in
        t ← setTimeout (Reregister callback) backoff;
        modify (set_reregisterTimeout (Some t))
    | HttpResponse statusCode body =>
        invoke callback
          (Some (Error ("eureka registration FAILED: status: " ++ pretty statusCode ++
                        " body: " ++ body)))
    end.

(** The callback of [request.del] in [deregister]. *)
Definition deregister_response (callback : callback) (r : http_reply)
  : ST state unit :=
  if status_is r 200 then
    log Info "de-registered with eureka: ";;
    emit "deregistered";;
    invoke callback None
  else
    match r with
    | HttpError error =>
        log Warn "Error deregistering with eureka";;
        invoke callback (Some error)
    | HttpResponse statusCode body =>
        invoke callback
          (Some (Error ("eureka deregistration FAILED: status: " ++ pretty statusCode ++
                        " body: " ++ body)))
    end.

(** The callback of [request.put] in [renew]. *)
Definition renew_response (r : http_reply) : ST state unit :=
  if status_is r 200 then
    log Debug "eureka heartbeat success";;
    emit "heartbeat"
  else if status_is r 404 then
    log Warn "eureka heartbeat FAILED, Re-registering app";;
    stopHeartbeats;;
    register Noop
  else
    match r with
    | HttpError _ => log LogError "An error in the request occurred."
    | HttpResponse _ _ => mret tt
    end;;
    log Warn "eureka heartbeat FAILED, will re-register with next server in list";;
    stopHeartbeats;;
    rotateCurrentServiceUrl;;
    register Noop.

(** The callback of [request.get] in [fetchRegistry]. *)
Definition fetchRegistry_response (callback : callback) (r : http_reply)
  : ST state unit :=
  if status_is r 200 then
    log Debug "retrieved registry successfully";;
    match JSON_parse (js_str (reply_body r)) with
    | Some registry => transformRegistry registry
    | None => throw (SyntaxError "Unexpected token in JSON")
    end;;
    emit "registryUpdated";;
    invoke callback None
  else
    match r with
    | HttpError error =>
        log Warn "Error fetching registry";;
        invoke callback (Some error)
    | HttpResponse _ _ =>
        invoke callback (Some (Error "Unable to retrieve registry from Eureka server"))
    end.

Definition http_response (k : caller) (r : http_reply) : ST state unit :=
  match k with
  | ForRegister callback connectionTimeout =>
      register_response callback connectionTimeout r
  | ForDeregister callback => deregister_response callback r
  | ForRenew => renew_response r
  | ForFetchRegistry callback => fetchRegistry_response callback r
  end.

(** [getInstancesByAppId]: the key is upper-cased, and no member of
    [Object.prototype] is spelled in upper case, so the own keys decide. *)
Definition getInstancesByAppId (appId : value) : ST state (list value) :=
  if negb (truthy appId) then
    throw (RangeError "Unable to query instances with no appId")
  else
    key ← lift (call_toUpperCase appId);
    instances ← gets (λ st, default [] (cache_app (cache st) !! key));
    match instances with
    | [] => log Warn "Unable to retrieve instances for appId"
    | _ => mret tt
    end;;
    mret instances.

(** [getInstancesByVipAddress]: [this.cache.vip[vipAddress] || []] reads the
    own key or the inherited member, both truthy, and the warning is logged
    when the [length] of what was read is 0. *)
Definition getInstancesByVipAddress (vipAddress : value) : ST state looked_up :=
  if negb (truthy vipAddress) then
    throw (RangeError "Unable to query instances with no vipAddress")
  else
    instances ← gets (λ st,
      default (Instances []) (read_member (cache_vip (cache st)) (to_string vipAddress)));
    (if length_is_zero instances
     then log Warn "Unable to retrieves instances for vipAddress"
     else mret tt);;
    mret instances.

(** [startRegistryFetches] *)
Definition startRegistryFetches : ST state unit :=
  h ← setInterval RegistryFetchTick (registryFetchInterval cfg);
  modify (set_registryFetch (Some h)).

(** [stop] *)
Definition stop (callback : callback) : ST state unit :=
  h ← gets registryFetch; clear_timer h;;
  h ← gets reregisterTimeout; clear_timer h;;
  stopHeartbeats;;
  deregister callback.

(** The closures given to [setTimeout] and [setInterval]. *)
Definition timer_fired (a : timer_action) : ST state unit :=
  match a with
  | SlowRegisterWarning =>
      log Warn "It looks like it's taking a while to register with Eureka."
  | Reregister callback => register callback
  | HeartbeatTick => renew
  | RegistryFetchTick => fetchRegistry WarnOnFetchError
  end.

(** ** The event loop *)

Inductive event : Type :=
| TimerFired (id : nat)
| HttpReplied (id : nat) (r : http_reply)
| DnsReplied (id : nat) (r : dns_reply)
| TokenReplied (id : nat) (r : token_reply).

(** Running one callback to completion; an exception that nothing catches is
    recorded. *)
Definition run (m : ST state unit) (st : state) : state :=
  match m st with
  | (Ok _, st') => st'
  | (Throw e, st') => record (Uncaught e) st'
  end.

Definition answered (id : nat) (st : state) : state :=
  set_pending (delete id (pending st)) (next_call st) st.

Definition expired (id : nat) (t : timer) (st : state) : state :=
  if t_repeat t then st else set_timers (delete id (timers st)) (next_timer st) st.

(** One turn of the event loop: the event resumes the closure that waits for
    it; an event nothing waits for changes nothing. *)
Definition step (ev : event) (st : state) : state :=
  match ev with
  | TimerFired id =>
      match timers st !! id with
      | Some t => run (timer_fired (t_action t)) (expired id t st)
      | None => st
      end
  | HttpReplied id r =>
      match pending st !! id with
      | Some (HttpCall _ k) => run (http_response k r) (answered id st)
      | _ => st
      end
  | DnsReplied id r =>
      match pending st !! id with
      | Some (DnsCall _ RegionLookup k) => run (region_resolved k r) (answered id st)
      | Some (DnsCall _ HostLookup k) => run (host_lookup_resolved k r) (answered id st)
      | _ => st
      end
  | TokenReplied id r =>
      match pending st !! id with
      | Some (TokenCall resume k) =>
          run ('(error, token) ← token_received r; token_resolved resume k error token)
              (answered id st)
      | _ => st
      end
  end.

(** The client after the constructor: empty cache, no timer, nothing in
    flight, the token of [OAuth2Util] an empty object. *)
Definition initial_state (urls : ring) (rnd : nat → Q) : state :=
  {| serviceUrl := urls; instance_status := None; cache := empty_cache;
     heartbeat := None; reregisterTimeout := None; registryFetch := None;
     timers := ∅; next_timer := 0; pending := ∅; next_call := 0;
     oauth_token := VObj []; random_source := rnd; random_draws := 0;
     trace := [] |}.

End Client.

(** ** A platform for the examples *)

Definition ascii_toUpperCase (c : ascii) : ascii :=
  let n := nat_of_ascii c in
  if (Nat.leb 97 n && Nat.leb n 122)%bool then ascii_of_nat (n - 32) else c.

Fixpoint string_toUpperCase (s : string) : string :=
  match s with
  | EmptyString => EmptyString
  | String c rest => String (ascii_toUpperCase c) (string_toUpperCase rest)
  end.

Definition instance_of (vipAddress status : string) : value :=
  VObj [("vipAddress", VStr vipAddress); ("status", VStr status)].

Definition application_of (name : string) (instance : value) : value :=
  VObj [("name", VStr name); ("instance", instance)].

Definition registry_of (application : value) : value :=
  VObj [("applications", VObj [("application", application)])].

(** The response bodies of the examples, by name, and what [JSON.parse] makes
    of them. *)
Definition sample_bodies : list (string * value) :=
  [ ("null", VNull);
    ("no-application", VObj [("applications", VObj [])]);
    ("empty-object", VObj []);
    ("one-app",
     registry_of (VArr [application_of "svc" (VArr [instance_of "v1" "UP"])])) ].

(** ASCII upper-casing, a table for [JSON.parse], and URLs that are their own
    host name: [url.format] prints [host] when set and falls back to
    [hostname], as Node does. *)
Definition sample_platform : Platform :=
  {| toUpperCase := string_toUpperCase;
     JSON_parse := λ body,
       snd <$> find (λ p, String.eqb (fst p) body) sample_bodies;
     url_parse := λ u,
       {| protocol := None; auth := None; host := Some u; hostname := Some u;
          port := None; pathname := None |};
     url_format := λ p,
       match host p with
       | Some h => h
       | None => default "" (hostname p)
       end |}.

(** ** The endpoint ring is a cyclic shift *)

Lemma rotate_cons (u : option string) (r : ring) : rotate (u :: r) = (r ++ [u])%list.
Proof. reflexivity. Qed.

Lemma validated_ring_inv (r : ring) :
  validate_serviceUrl r = true → ∃ u rest, r = u :: rest.
Proof. destruct r as [|u rest]; [discriminate | eauto]. Qed.

Lemma rotate_length (r : ring) :
  validate_serviceUrl r = true → length (rotate r) = length r.
Proof.
  intros (u & rest & ->)%validated_ring_inv.
  rewrite rotate_cons, length_app. simpl. lia.
Qed.

Lemma rotate_perm (r : ring) : validate_serviceUrl r = true → rotate r ≡ₚ r.
Proof.
  intros (u & rest & ->)%validated_ring_inv.
  rewrite rotate_cons. symmetry. apply Permutation_cons_append.
Qed.

Lemma rotate_validated (r : ring) :
  validate_serviceUrl r = true → validate_serviceUrl (rotate r) = true.
Proof.
  intros H. pose proof (rotate_length r H) as Hlen.
  unfold validate_serviceUrl in *. rewrite Hlen. exact H.
Qed.

(** [k] rotations move the first [k] entries, in order, behind the others. *)
Lemma iter_rotate (k : nat) (r : ring) :
  (k ≤ length r)%nat → Nat.iter k rotate r = (drop k r ++ take k r)%list.
Proof.
  induction k as [|k IH]; intros Hk.
  - simpl. rewrite drop_0, take_0, app_nil_r. reflexivity.
  - simpl. rewrite IH by lia.
    destruct (lookup_lt_is_Some_2 r k) as [u Hu]; [lia|].
    rewrite (drop_S r u k Hu), <- app_comm_cons, rotate_cons, (take_S_r r k u Hu).
    rewrite <- app_assoc. reflexivity.
Qed.

(** C9.  The endpoint ring is rotated as a cyclic shift: on a validated
    (non-empty) ring a rotation moves the first URL behind the others, so it
    keeps the length and the URLs, as many rotations as the ring has entries
    restore it, and [A,B,C] becomes [B,C,A] after one rotation and [A,B,C]
    again after three. *)
Theorem rotation_is_cyclic_shift (r : ring) :
  validate_serviceUrl r = true →
  (∃ u rest, r = u :: rest ∧ rotate r = (rest ++ [u])%list) ∧
  length (rotate r) = length r ∧
  rotate r ≡ₚ r ∧
  (∀ u, u ∈ rotate r ↔ u ∈ r) ∧
  Nat.iter (length r) rotate r = r ∧
  (∀ a b c, r = [a; b; c] →
     rotate r = [b; c; a] ∧ Nat.iter 3 rotate r = [a; b; c]).
Proof.
  intros Hv. split.
  { destruct (validated_ring_inv r Hv) as (u & rest & ->).
    exists u, rest. split; [reflexivity | apply rotate_cons]. }
  split; [by apply rotate_length|].
  split; [by apply rotate_perm|].
  split; [intros u; by rewrite (rotate_perm r Hv)|].
  split.
  - rewrite iter_rotate by lia.
    rewrite drop_all, firstn_all. reflexivity.
  - intros a b c ->. split; reflexivity.
Qed.

Lemma rotation_is_cyclic_shift_witness :
  let r := [Some "http://a:8761/eureka/apps/"; Some "http://b:8761/eureka/apps/";
            Some "http://c:8761/eureka/apps/"] in
  (∃ u rest, r = u :: rest ∧ rotate r = (rest ++ [u])%list) ∧
  length (rotate r) = length r ∧
  rotate r ≡ₚ r ∧
  (∀ u, u ∈ rotate r ↔ u ∈ r) ∧
  Nat.iter (length r) rotate r = r ∧
  (∀ a b c, r = [a; b; c] →
     rotate r = [b; c; a] ∧ Nat.iter 3 rotate r = [a; b; c]).
Proof. intros r. apply (rotation_is_cyclic_shift r). reflexivity. Defined.

(** On an empty ring, which [validateConfig] refuses, [shift] would return
    [undefined] and [push] would store it. *)
Example rotate_empty_ring : rotate [] = [None].
Proof. reflexivity. Qed.

(** ** Building the cache *)

Section Transform.
Context {P : Platform} (cfg : Config).

(** What an application entry contributes: the key of the app-id mapping, the
    key of the VIP mapping and the list stored under both.  An entry with an
    array of instances stores the instances that pass [validateInstance]
    under the VIP address of the first element of the array as received; an
    entry with one instance object that passes stores it alone. *)
Inductive indexed_as (app : value) : string → string → list value → Prop :=
| multi_instance name first rest kept vipAddress :
    get_prop app "name" = Ok (VStr name) →
    get_prop app "instance" = Ok (VArr (first :: rest)) →
    filter_res (validateInstance cfg) (first :: rest) = Ok kept →
    get_prop first "vipAddress" = Ok vipAddress →
    indexed_as app (toUpperCase name) (to_string vipAddress) kept
| single_instance name props vipAddress :
    get_prop app "name" = Ok (VStr name) →
    get_prop app "instance" = Ok (VObj props) →
    truthy (lookup_prop "length" props) = false →
    validateInstance cfg (VObj props) = Ok true →
    lookup_prop "vipAddress" props = vipAddress →
    indexed_as app (toUpperCase name) (to_string vipAddress) [VObj props].

Definition indexed (K V : string) (l : list value) (c : Cache) : Cache :=
  {| cache_app := <[K := l]> (cache_app c); cache_vip := <[V := l]> (cache_vip c) |}.

Lemma transformApp_indexed app K V kept c :
  indexed_as app K V kept →
  transformApp cfg app c = (Ok tt, indexed K V kept c).
Proof.
  intros [name first rest l vip Hname Hinst Hkept Hvip
         |name props vip Hname Hinst Hlen Hvalid Hvip];
    unfold transformApp, mbind, ST_bind, lift.
  - rewrite Hinst. cbn [get_prop String.eqb Ascii.eqb Bool.eqb].
    replace (truthy (VNum (Z.of_nat (length (first :: rest))))) with true
      by (cbn [length truthy]; destruct (Z.eqb_spec (Z.of_nat (S (length rest))) 0);
          [lia | reflexivity]).
    cbn [array_filter]. rewrite Hkept, Hname. cbn [call_toUpperCase set_app modify].
    cbn [get_index nth]. rewrite Hvip. reflexivity.
  - rewrite Hinst. cbn [get_prop]. rewrite Hlen, Hvalid, Hvip, Hname. reflexivity.
Qed.

(** A single instance that the filter rejects is not stored at all. *)
Lemma transformApp_single_rejected app props c :
  get_prop app "instance" = Ok (VObj props) →
  truthy (lookup_prop "length" props) = false →
  validateInstance cfg (VObj props) = Ok false →
  transformApp cfg app c = (Ok tt, c).
Proof.
  intros Hinst Hlen Hvalid. unfold transformApp, mbind, ST_bind, lift.
  rewrite Hinst. cbn [get_prop]. rewrite Hlen, Hvalid. reflexivity.
Qed.

(** An entry stored under other keys leaves the lists under [K] and [V]. *)
Lemma indexed_as_leaves app K' V' kept K V c :
  indexed_as app K' V' kept →
  (K' ≠ K → cache_app (transformApp cfg app c).2 !! K = cache_app c !! K) ∧
  (V' ≠ V → cache_vip (transformApp cfg app c).2 !! V = cache_vip c !! V).
Proof.
  intros Happ. rewrite (transformApp_indexed app K' V' kept c Happ).
  cbn [indexed cache_app cache_vip snd].
  split; intros Hne; by rewrite lookup_insert_ne.
Qed.

(** The application entries of a payload: the elements of an array, or the
    one object. *)
Definition entries (application : value) : list value :=
  match application with
  | VArr apps => apps
  | _ => [application]
  end.

Definition fill (apps : list value) : ST Cache unit := forEach apps (transformApp cfg).

Lemma build_cache_fill application :
  build_cache cfg application =
  match fill (entries application) empty_cache with
  | (Ok _, newCache) => Ok newCache
  | (Throw e, _) => Throw e
  end.
Proof.
  unfold build_cache, fill. destruct application; try reflexivity;
    cbn [entries forEach]; unfold mbind, ST_bind;
    match goal with |- context [transformApp cfg ?a empty_cache] =>
      destruct (transformApp cfg a empty_cache) as [[[]|e] c'] end; reflexivity.
Qed.

Lemma fill_app before after c r c' :
  fill (before ++ after) c = (Ok r, c') →
  ∃ c1, fill before c = (Ok tt, c1) ∧ fill after c1 = (Ok r, c').
Proof.
  revert c. induction before as [|a before IH]; intros c H.
  - exists c. split; [reflexivity | exact H].
  - cbn [fill forEach app] in H |- *. unfold mbind, ST_bind in H |- *.
    destruct (transformApp cfg a c) as [[[]|e] c0]; [|discriminate].
    apply IH in H. exact H.
Qed.

(** Entries that leave a key alone keep what an earlier entry stored there. *)
Lemma fill_keeps (get : Cache → option (list value)) after :
  (∀ e c, e ∈ after → get (transformApp cfg e c).2 = get c) →
  ∀ c r c', fill after c = (Ok r, c') → get c' = get c.
Proof.
  induction after as [|a after IH]; intros Hleave c r c' H.
  - cbn in H. injection H as _ <-. reflexivity.
  - cbn [fill forEach] in H. unfold mbind, ST_bind in H.
    pose proof (Hleave a c (list_elem_of_here _ _)) as Ha.
    destruct (transformApp cfg a c) as [[[]|e] c0]; [|discriminate].
    rewrite (IH (λ e c He, Hleave e c (list_elem_of_further _ _ _ He)) c0 r c' H).
    exact Ha.
Qed.

End Transform.

(** ** Configurations of the examples *)

(** Static service URLs, no token provider, only [UP] instances kept. *)
Definition static_config : Config :=
  {| useDns := false; ec2Region := None; filterUpInstances := true;
     heartbeatInterval := 30000; registryFetchInterval := 30000;
     oAuth2Enabled := false; instance_app := "svc"; instanceId := "host-1" |}.

(** DNS discovery switched on, [ec2Region] not set. *)
Definition dns_config : Config :=
  {| useDns := true; ec2Region := None; filterUpInstances := true;
     heartbeatInterval := 30000; registryFetchInterval := 30000;
     oAuth2Enabled := false; instance_app := "svc"; instanceId := "host-1" |}.

(** DNS discovery for the region [r1]. *)
Definition dns_region_config : Config :=
  {| useDns := true; ec2Region := Some "r1"; filterUpInstances := true;
     heartbeatInterval := 30000; registryFetchInterval := 30000;
     oAuth2Enabled := false; instance_app := "svc"; instanceId := "host-1" |}.

(** Static service URLs with a token provider. *)
Definition oauth_config : Config :=
  {| useDns := false; ec2Region := None; filterUpInstances := true;
     heartbeatInterval := 30000; registryFetchInterval := 30000;
     oAuth2Enabled := true; instance_app := "svc"; instanceId := "host-1" |}.

(** ** The cache index (C5, C8) *)

(** What a lookup by VIP address returns. *)
Lemma getInstancesByVipAddress_found vipAddress st :
  truthy vipAddress = true →
  fst (getInstancesByVipAddress vipAddress st) =
  Ok (default (Instances [])
        (read_member (cache_vip (cache st)) (to_string vipAddress))).
Proof.
  intros Htruthy. unfold getInstancesByVipAddress. rewrite Htruthy. cbn [negb].
  unfold gets, log, modify, mbind, ST_bind, mret, ST_ret. cbv beta iota.
  by destruct (length_is_zero _).
Qed.

Lemma read_member_own obj key l :
  obj !! key = Some l → read_member obj key = Some (Instances l).
Proof. intros H. unfold read_member. by rewrite H. Qed.

(** C5, as the code has it.  Every application entry of a payload whose
    transformation succeeds is normalized to a list, filtered, and stored
    under its upper-cased name and under ONE VIP key, the VIP address of the
    first instance of the entry as received (of the instance itself for a
    single-instance entry that passes the filter): the list is found under
    both keys as long as no later entry of the payload writes the same key.
    The entry writes these two keys and nothing else, so whatever the cache
    held under another VIP key it still holds, and a VIP key that no other
    entry of the payload writes holds nothing in the new cache: an instance
    whose VIP address is not the first one's is not found under its own, where
    [getInstancesByVipAddress] returns the empty list (the inherited member,
    for a name that [Object.prototype] has; no entry storing under
    [__proto__]). *)
Theorem entry_indexed_by_name_and_first_vip {P : Platform} (cfg : Config)
    (application : value) (before : list value) (entry : value)
    (after : list value) (K V : string) (kept : list value) (newCache : Cache) :
  entries application = (before ++ entry :: after)%list →
  build_cache cfg application = Ok newCache →
  indexed_as cfg entry K V kept →
  (∀ e c, e ∈ after → cache_app (transformApp cfg e c).2 !! K = cache_app c !! K) →
  (∀ e c, e ∈ after → cache_vip (transformApp cfg e c).2 !! V = cache_vip c !! V) →
  cache_app newCache !! K = Some kept ∧
  cache_vip newCache !! V = Some kept ∧
  (∀ c, transformApp cfg entry c =
          (Ok tt, {| cache_app := <[K := kept]> (cache_app c);
                     cache_vip := <[V := kept]> (cache_vip c) |})) ∧
  (∀ c V', V' ≠ V → cache_vip (transformApp cfg entry c).2 !! V' = cache_vip c !! V') ∧
  (∀ V', V' ≠ V →
     (∀ e c, e ∈ (before ++ after)%list →
        cache_vip (transformApp cfg e c).2 !! V' = cache_vip c !! V') →
     cache_vip newCache !! V' = None ∧
     ∀ vipAddress st, cache st = newCache → cache_vip newCache !! "__proto__" = None →
       truthy vipAddress = true → to_string vipAddress = V' →
       fst (getInstancesByVipAddress vipAddress st) =
         Ok (match inherited V' with
             | Some _ => Inherited V'
             | None => Instances []
             end)).
Proof.
  intros Hentries Hbuild Hentry Happ Hvip.
  rewrite build_cache_fill, Hentries in Hbuild.
  destruct (fill cfg (before ++ entry :: after) empty_cache) as [[r|e] c] eqn:Hfill;
    [|discriminate].
  injection Hbuild as ->.
  apply fill_app in Hfill as (c1 & Hbefore & Hrest).
  cbn [fill forEach] in Hrest. unfold mbind, ST_bind in Hrest.
  rewrite (transformApp_indexed cfg entry K V kept c1 Hentry) in Hrest.
  split; [|split; [|split; [|split]]].
  - rewrite (fill_keeps cfg (λ c, cache_app c !! K) after Happ _ _ _ Hrest).
    apply lookup_insert_eq.
  - rewrite (fill_keeps cfg (λ c, cache_vip c !! V) after Hvip _ _ _ Hrest).
    apply lookup_insert_eq.
  - intros c. apply (transformApp_indexed cfg entry K V kept c Hentry).
  - intros c V' Hne.
    by apply (indexed_as_leaves cfg entry K V kept K V' c Hentry).
  - intros V' Hne Hothers.
    assert (Hnone : cache_vip newCache !! V' = None); [|split; [exact Hnone|]].
    2: { intros vip st Hcache _ Htruthy <-.
         rewrite getInstancesByVipAddress_found, Hcache by done.
         unfold read_member. rewrite Hnone. by destruct (inherited _). }
    rewrite (fill_keeps cfg (λ c, cache_vip c !! V') after
               (λ e c He, Hothers e c (proj2 (elem_of_app before after e) (or_intror He)))
               _ _ _ Hrest).
    cbn [indexed cache_vip]. rewrite lookup_insert_ne by done.
    rewrite (fill_keeps cfg (λ c, cache_vip c !! V') before
               (λ e c He, Hothers e c (proj2 (elem_of_app before after e) (or_introl He)))
               _ _ _ Hbefore).
    apply lookup_empty.
Qed.

Lemma entry_indexed_by_name_and_first_vip_witness :
  let i1 := instance_of "v1" "UP" in
  let i2 := instance_of "v2" "UP" in
  ∃ newCache,
    build_cache (P := sample_platform) static_config
      (VArr [application_of "first" i1;
             application_of "svc" (VArr [i1; i2]);
             application_of "last" (instance_of "v9" "UP")]) = Ok newCache ∧
    cache_app newCache !! "SVC" = Some [i1; i2] ∧
    cache_vip newCache !! "v1" = Some [i1; i2] ∧
    get_prop i2 "vipAddress" = Ok (VStr "v2") ∧
    cache_vip newCache !! "v2" = None ∧
    fst (getInstancesByVipAddress (VStr "v2")
           (set_cache newCache (initial_state [Some "http://a/"] (λ _, 0%Q)))) =
      Ok (Instances []).
Proof.
  intros i1 i2. eexists. split; [vm_compute; reflexivity|].
  assert (Hfirst : indexed_as (P := sample_platform) static_config
                     (application_of "first" i1) "FIRST" "v1" [i1]).
  { apply (single_instance (P := sample_platform) static_config _ "first"
             [("vipAddress", VStr "v1"); ("status", VStr "UP")] (VStr "v1"));
      reflexivity. }
  assert (Hlast : indexed_as (P := sample_platform) static_config
                    (application_of "last" (instance_of "v9" "UP")) "LAST" "v9"
                    [instance_of "v9" "UP"]).
  { apply (single_instance (P := sample_platform) static_config _ "last"
             [("vipAddress", VStr "v9"); ("status", VStr "UP")] (VStr "v9"));
      reflexivity. }
  destruct (entry_indexed_by_name_and_first_vip (P := sample_platform) static_config
           (VArr [application_of "first" i1; application_of "svc" (VArr [i1; i2]);
                  application_of "last" (instance_of "v9" "UP")])
           [application_of "first" i1] (application_of "svc" (VArr [i1; i2]))
           [application_of "last" (instance_of "v9" "UP")]
           "SVC" "v1" [i1; i2] _ eq_refl eq_refl)
    as (Happ & Hvip & _ & _ & Hother).
  - apply (multi_instance (P := sample_platform) static_config _ "svc" i1 [i2] [i1; i2]
             (VStr "v1")); reflexivity.
  - intros e c ->%list_elem_of_singleton.
    by apply (indexed_as_leaves (P := sample_platform) static_config _
                "LAST" "v9" [instance_of "v9" "UP"] "SVC" "v1" c).
  - intros e c ->%list_elem_of_singleton.
    by apply (indexed_as_leaves (P := sample_platform) static_config _
                "LAST" "v9" [instance_of "v9" "UP"] "SVC" "v1" c).
  - split; [exact Happ|]. split; [exact Hvip|]. split; [reflexivity|].
    destruct (Hother "v2") as [Hnone Hlookup]; [done| |].
    + intros e c [->%list_elem_of_singleton | ->%list_elem_of_singleton]%elem_of_app.
      * by apply (indexed_as_leaves (P := sample_platform) static_config _
                    "FIRST" "v1" [i1] "SVC" "v2" c).
      * by apply (indexed_as_leaves (P := sample_platform) static_config _
                    "LAST" "v9" [instance_of "v9" "UP"] "SVC" "v2" c).
    + split; [exact Hnone|]. by apply (Hlookup (VStr "v2")).
Defined.

(** C5 as stated fails: with two instances under different VIP addresses,
    both are listed under the application name and under the first VIP
    address, and nothing is stored under the VIP address of the second. *)
Lemma second_instance_vip_not_indexed :
  let i1 := instance_of "v1" "UP" in
  let i2 := instance_of "v2" "UP" in
  ∃ newCache,
    build_cache (P := sample_platform) static_config
      (VArr [application_of "svc" (VArr [i1; i2])]) = Ok newCache ∧
    cache_app newCache !! "SVC" = Some [i1; i2] ∧
    cache_vip newCache !! "v1" = Some [i1; i2] ∧
    get_prop i2 "vipAddress" = Ok (VStr "v2") ∧
    cache_vip newCache !! "v2" = None ∧
    fst (getInstancesByVipAddress (VStr "v2")
           (set_cache newCache (initial_state [Some "http://a/"] (λ _, 0%Q)))) =
      Ok (Instances []).
Proof.
  intros i1 i2. eexists. split; [vm_compute; reflexivity|].
  repeat split; vm_compute; reflexivity.
Qed.

(** C8, as the code has it.  For the same application name, an entry with a
    single instance object that passes [validateInstance] and an entry with
    an array of instances both leave a list under the upper-cased name and
    the same list under a VIP key; the single instance is stored as a
    one-element list, and the cache is the very same as for the array that
    holds just that instance. *)
Theorem single_instance_normalized_like_array {P : Platform} (cfg : Config)
    (single multi : value) (name : string) (props : list (string * value))
    (first : value) (rest kept : list value) (vipAddress : value) (c : Cache) :
  get_prop single "name" = Ok (VStr name) →
  get_prop single "instance" = Ok (VObj props) →
  truthy (lookup_prop "length" props) = false →
  validateInstance cfg (VObj props) = Ok true →
  get_prop multi "name" = Ok (VStr name) →
  get_prop multi "instance" = Ok (VArr (first :: rest)) →
  filter_res (validateInstance cfg) (first :: rest) = Ok kept →
  get_prop first "vipAddress" = Ok vipAddress →
  ∃ c1 c2,
    transformApp cfg single c = (Ok tt, c1) ∧
    transformApp cfg multi c = (Ok tt, c2) ∧
    cache_app c1 !! toUpperCase name = Some [VObj props] ∧
    cache_vip c1 !! to_string (lookup_prop "vipAddress" props) = Some [VObj props] ∧
    cache_app c2 !! toUpperCase name = Some kept ∧
    cache_vip c2 !! to_string vipAddress = Some kept ∧
    (first :: rest = [VObj props] → c1 = c2).
Proof.
  intros Hname1 Hinst1 Hlen Hvalid Hname2 Hinst2 Hkept Hvip.
  pose proof (single_instance cfg single name props _ Hname1 Hinst1 Hlen Hvalid eq_refl)
    as Hsingle.
  pose proof (multi_instance cfg multi name first rest kept vipAddress
                Hname2 Hinst2 Hkept Hvip) as Hmulti.
  eexists _, _.
  split; [exact (transformApp_indexed cfg _ _ _ _ c Hsingle)|].
  split; [exact (transformApp_indexed cfg _ _ _ _ c Hmulti)|].
  cbn [indexed cache_app cache_vip].
  rewrite !lookup_insert_eq. repeat split.
  intros [= -> ->].
  cbn [filter_res] in Hkept. unfold mbind, res_bind in Hkept.
  rewrite Hvalid in Hkept. injection Hkept as <-.
  cbn [get_prop] in Hvip. injection Hvip as <-. reflexivity.
Qed.

Lemma single_instance_normalized_like_array_witness :
  let i := instance_of "v1" "UP" in
  ∃ c1 c2,
    transformApp (P := sample_platform) static_config (application_of "svc" i)
      empty_cache = (Ok tt, c1) ∧
    transformApp (P := sample_platform) static_config (application_of "svc" (VArr [i]))
      empty_cache = (Ok tt, c2) ∧
    cache_app c1 !! "SVC" = Some [i] ∧
    cache_vip c1 !! "v1" = Some [i] ∧
    cache_app c2 !! "SVC" = Some [i] ∧
    cache_vip c2 !! "v1" = Some [i] ∧
    ([i] = [i] → c1 = c2).
Proof.
  intros i.
  apply (single_instance_normalized_like_array (P := sample_platform) static_config
           (application_of "svc" i) (application_of "svc" (VArr [i])) "svc"
           [("vipAddress", VStr "v1"); ("status", VStr "UP")] i [] [i] (VStr "v1")
           empty_cache); reflexivity.
Defined.

(** C8 as stated fails when filtering is on and the single instance is not
    [UP]: nothing is stored for the application, while the array holding the
    same instance stores an empty list under both keys. *)
Lemma rejected_single_instance_not_listed :
  let i := instance_of "v1" "DOWN" in
  ∃ c1 c2,
    build_cache (P := sample_platform) static_config
      (VArr [application_of "svc" i]) = Ok c1 ∧
    build_cache (P := sample_platform) static_config
      (VArr [application_of "svc" (VArr [i])]) = Ok c2 ∧
    cache_app c1 !! "SVC" = None ∧ cache_vip c1 !! "v1" = None ∧
    cache_app c2 !! "SVC" = Some [] ∧ cache_vip c2 !! "v1" = Some [].
Proof.
  intros i. eexists _, _.
  split; [vm_compute; reflexivity|].
  split; [vm_compute; reflexivity|].
  repeat split; vm_compute; reflexivity.
Qed.

(** ** Random delays *)

Lemma pow2_pos e : (0 < pow2 e)%Q.
Proof. apply Qpower_0_lt. reflexivity. Qed.

Lemma pow2_add a b : (pow2 (a + b) == pow2 a * pow2 b)%Q.
Proof. apply Qpower_plus. discriminate. Qed.

Lemma pow2_le a b : a ≤ b → (pow2 a <= pow2 b)%Q.
Proof. intros H. apply Qpower_le_compat_l; [exact H | discriminate]. Qed.

Lemma pow2_lt a b : a < b → (pow2 a < pow2 b)%Q.
Proof. intros H. apply Qpower_lt_compat_l; [exact H | reflexivity]. Qed.

Lemma pow2_lt_inv a b : (pow2 a < pow2 b)%Q → a < b.
Proof. intros H. apply (Qpower_lt_compat_l_inv 2); [exact H | reflexivity]. Qed.

Lemma pow2_Z n : 0 ≤ n → (pow2 n == inject_Z (2 ^ n))%Q.
Proof. intros H. unfold pow2. rewrite Zpower_Qpower by exact H. reflexivity. Qed.

(** [binary_exponent] is the exponent of the binade of [x]: the quotient
    [a/b] lies strictly between [2^(la-lb-1)] and [2^(la-lb+1)] for the bit
    lengths [la+1] and [lb+1], and the test picks the right one of the two. *)
Lemma binary_exponent_spec (x : Q) :
  (0 < x)%Q → (pow2 (binary_exponent x) <= x ∧ x < pow2 (binary_exponent x + 1))%Q.
Proof.
  intros Hx. destruct x as [a b]. unfold binary_exponent. cbn [Qnum Qden].
  assert (Ha : 0 < a) by (unfold Qlt in Hx; cbn in Hx; lia).
  pose proof (Z.log2_spec a Ha) as [Hal Hau].
  pose proof (Z.log2_spec (Z.pos b) (Pos2Z.is_pos b)) as [Hbl Hbu].
  pose proof (Z.log2_nonneg a) as Hla. pose proof (Z.log2_nonneg (Z.pos b)) as Hlb.
  set (la := Z.log2 a) in *. set (lb := Z.log2 (Z.pos b)) in *.
  assert (Hq : (a # b == inject_Z a / inject_Z (Z.pos b))%Q) by apply Qmake_Qdiv.
  assert (Hb0 : (0 < inject_Z (Z.pos b))%Q) by (rewrite <- (Zlt_Qlt 0); lia).
  assert (Hal' : (pow2 la <= inject_Z a)%Q) by (rewrite pow2_Z, <- Zle_Qle; lia).
  assert (Hau' : (inject_Z a < pow2 (la + 1))%Q).
  { rewrite pow2_Z, <- Zlt_Qlt by lia. replace (la + 1) with (Z.succ la) by lia. lia. }
  assert (Hbl' : (pow2 lb <= inject_Z (Z.pos b))%Q) by (rewrite pow2_Z, <- Zle_Qle; lia).
  assert (Hbu' : (inject_Z (Z.pos b) < pow2 (lb + 1))%Q).
  { rewrite pow2_Z, <- Zlt_Qlt by lia. replace (lb + 1) with (Z.succ lb) by lia. lia. }
  pose proof (pow2_pos lb) as Hplb. pose proof (pow2_pos la) as Hpla.
  pose proof (pow2_pos (la - lb)) as Hp.
  pose proof (pow2_add (la - lb) lb) as E1. replace (la - lb + lb) with la in E1 by lia.
  pose proof (pow2_add (la - lb - 1) (lb + 1)) as E2.
  replace (la - lb - 1 + (lb + 1)) with la in E2 by lia.
  pose proof (pow2_add (la - lb + 1) lb) as E3.
  replace (la - lb + 1 + lb) with (la + 1) in E3 by lia.
  pose proof (pow2_pos (la - lb - 1)) as Hp1. pose proof (pow2_pos (la - lb + 1)) as Hp2.
  pose proof (pow2_pos (lb + 1)) as Hplb1.
  (* x * b == a *)
  assert (Hxa : ((a # b) * inject_Z (Z.pos b) == inject_Z a)%Q).
  { rewrite Hq. field. lra. }
  set (x := (a # b)%Q) in *.
  assert (Hupper : (x < pow2 (la - lb + 1))%Q).
  { apply (Qmult_lt_r _ _ (inject_Z (Z.pos b))); [exact Hb0|]. rewrite Hxa.
    eapply Qlt_le_trans; [exact Hau'|]. rewrite E3.
    apply Qmult_le_l; [exact Hp2 | exact Hbl']. }
  assert (Hlower : (pow2 (la - lb - 1) <= x)%Q).
  { apply (Qmult_le_r _ _ (inject_Z (Z.pos b))); [exact Hb0|]. rewrite Hxa.
    eapply Qle_trans; [|exact Hal']. rewrite E2.
    apply Qmult_le_l; [exact Hp1|]. apply Qlt_le_weak. exact Hbu'. }
  destruct (Qle_bool (pow2 (la - lb)) x) eqn:Htest.
  - apply Qle_bool_iff in Htest. split; [exact Htest | exact Hupper].
  - split; [exact Hlower|]. replace (la - lb - 1 + 1) with (la - lb) by lia.
    apply Qnot_le_lt. intros Hle. apply Qle_bool_iff in Hle. congruence.
Qed.

Lemma round_half_even_floor (y : Q) :
  round_half_even y = Qfloor y ∨ round_half_even y = Qfloor y + 1.
Proof.
  unfold round_half_even.
  destruct (y - inject_Z (Qfloor y) ?= 1 # 2)%Q; [destruct (Z.even (Qfloor y))|..]; auto.
Qed.

Lemma round_half_even_error (y : Q) :
  (inject_Z (round_half_even y) - y <= 1 # 2 ∧ y - inject_Z (round_half_even y) <= 1 # 2)%Q.
Proof.
  pose proof (Qfloor_le y) as Hlo. pose proof (Qlt_floor y) as Hhi.
  rewrite inject_Z_plus in Hhi. change (inject_Z 1) with 1%Q in Hhi.
  unfold round_half_even.
  destruct (Qcompare_spec (y - inject_Z (Qfloor y)) (1 # 2)) as [H|H|H];
    [destruct (Z.even (Qfloor y))|..];
    rewrite ?inject_Z_plus; change (inject_Z 1) with 1%Q; lra.
Qed.

(** An integer below [y] is below its rounding, and one above is above. *)
Lemma round_half_even_ge (y : Q) (n : Z) : (inject_Z n <= y)%Q → n ≤ round_half_even y.
Proof.
  intros H. apply Qfloor_resp_le in H. rewrite Qfloor_Z in H.
  destruct (round_half_even_floor y) as [-> | ->]; lia.
Qed.

Lemma round_half_even_le (y : Q) (n : Z) : (y <= inject_Z n)%Q → round_half_even y ≤ n.
Proof.
  intros H.
  destruct (Z.le_gt_cases (round_half_even y) n) as [Hle|Hgt]; [exact Hle|].
  assert (Hf : Qfloor y ≤ n) by (rewrite <- (Qfloor_Z n); by apply Qfloor_resp_le).
  assert (Hr : round_half_even y = n + 1 ∧ Qfloor y = n)
    by (destruct (round_half_even_floor y); lia).
  destruct Hr as [Hr Hfl].
  pose proof (Qfloor_le y) as Hlo. rewrite Hfl in Hlo.
  assert (Hy : (y == inject_Z n)%Q) by lra.
  exfalso. revert Hr. unfold round_half_even. rewrite Hfl.
  destruct (Qcompare_spec (y - inject_Z n) (1 # 2)) as [E|E|E]; try lra; lia.
Qed.

Lemma ulp_pos x : (0 < ulp x)%Q.
Proof. apply pow2_pos. Qed.

Lemma round_double_pos (x : Q) :
  (0 < x)%Q → round_double x = (inject_Z (round_half_even (x / ulp x)) * ulp x)%Q.
Proof. intros H. unfold round_double. apply Qgt_alt in H. by rewrite H. Qed.

Lemma round_double_0 (x : Q) : (x == 0)%Q → round_double x = 0%Q.
Proof. intros H. unfold round_double. apply Qeq_alt in H. by rewrite H. Qed.

(** Rounding moves a value by half a gap at most. *)
Lemma round_double_error (x : Q) :
  (0 < x)%Q →
  (round_double x - x <= ulp x * (1 # 2) ∧ x - round_double x <= ulp x * (1 # 2))%Q.
Proof.
  intros Hx. rewrite (round_double_pos x Hx).
  pose proof (ulp_pos x) as Hu.
  pose proof (round_half_even_error (x / ulp x)) as [H1 H2].
  set (m := inject_Z (round_half_even (x / ulp x))) in *.
  assert (E : (x == x / ulp x * ulp x)%Q) by (field; lra).
  split.
  - assert ((m * ulp x - x)%Q == ((m - x / ulp x) * ulp x)%Q)%Q as -> by (field; lra).
    rewrite (Qmult_comm (ulp x)). apply Qmult_le_compat_r; lra.
  - assert ((x - m * ulp x)%Q == ((x / ulp x - m) * ulp x)%Q)%Q as -> by (field; lra).
    rewrite (Qmult_comm (ulp x)). apply Qmult_le_compat_r; lra.
Qed.


(** Below [2^53] every integer is a multiple of the gap. *)
Lemma integer_on_grid (x : Q) (n : Z) :
  (0 < x)%Q → (x < pow2 53)%Q →
  ∃ N : Z, (inject_Z n == inject_Z N * ulp x)%Q.
Proof.
  intros Hx Hlt.
  pose proof (binary_exponent_spec x Hx) as [Hlo _].
  assert (He : binary_exponent x < 53) by (apply pow2_lt_inv; lra).
  set (e := Z.max (binary_exponent x) (-1022)).
  exists (n * 2 ^ (52 - e)). unfold ulp. fold e.
  rewrite inject_Z_mult, <- pow2_Z by lia.
  rewrite <- Qmult_assoc, <- pow2_add. replace (52 - e + (e - 52)) with 0 by lia.
  change (pow2 0) with 1%Q. lra.
Qed.


Lemma round_double_integer_ge (x : Q) (n : Z) :
  (0 < x)%Q → (x < pow2 53)%Q → (x <= inject_Z n)%Q → (round_double x <= inject_Z n)%Q.
Proof.
  intros Hx Hlt Hn. rewrite (round_double_pos x Hx).
  destruct (integer_on_grid x n Hx Hlt) as [N HN]. pose proof (ulp_pos x) as Hu.
  rewrite HN. apply Qmult_le_compat_r; [|lra].
  rewrite <- Zle_Qle. apply round_half_even_le.
  apply Qle_shift_div_r; [exact Hu | lra].
Qed.

(** A double below 1 is at most [1 - 2^-53]. *)
Lemma double_below_one (r : Q) :
  is_double r → (0 <= r)%Q → (r < 1)%Q → (r <= 1 - pow2 (-53))%Q.
Proof.
  intros Hd Hlo Hhi.
  assert (Hhalf : (pow2 (-53) <= 1 # 2)%Q) by (vm_compute; discriminate).
  destruct (Qlt_le_dec 0 r) as [Hpos|]; [|lra].
  pose proof (binary_exponent_spec r Hpos) as [Hel Heu].
  assert (He : binary_exponent r < 0) by (apply pow2_lt_inv; change (pow2 0) with 1%Q; lra).
  destruct (Z.eq_dec (binary_exponent r) (-1)) as [E|E].
  - unfold is_double in Hd. rewrite (round_double_pos r Hpos) in Hd.
    unfold ulp in Hd. rewrite E in Hd. change (Z.max (-1) (-1022) - 52) with (-53) in Hd.
    set (m := round_half_even (r / pow2 (-53))) in *.
    assert (Hm : m < 2 ^ 53).
    { rewrite Zlt_Qlt. rewrite <- pow2_Z by lia.
      pose proof (pow2_pos (-53)).
      assert ((pow2 53) == (1 / pow2 (-53))%Q)%Q as -> by (vm_compute; reflexivity).
      apply Qlt_shift_div_l; lra. }
    assert (Hm' : (inject_Z m <= inject_Z (2 ^ 53 - 1))%Q) by (rewrite <- Zle_Qle; lia).
    rewrite <- Hd.
    assert ((1 - pow2 (-53))%Q == (inject_Z (2 ^ 53 - 1) * pow2 (-53))%Q)%Q as -> by (vm_compute; reflexivity).
    apply Qmult_le_compat_r; [exact Hm' | apply Qlt_le_weak, pow2_pos].
  - assert (Hle : (pow2 (binary_exponent r + 1) <= pow2 (-1))%Q) by (apply pow2_le; lia).
    change (pow2 (-1)) with (1 # 2)%Q in Hle. lra.
Qed.

(** [Math.floor(r * n)] for a double [r] of [0, 1) and a positive integer [n]
    is one of [0], ..., [n - 1]: the product stays more than half a gap
    below [n]. *)
Lemma floor_scaled_range (r : Q) (n : Z) :
  is_double r → (0 <= r)%Q → (r < 1)%Q → 0 < n → 0 ≤ floor_scaled r n < n.
Proof.
  intros Hd Hlo Hhi Hn. unfold floor_scaled.
  pose proof (double_below_one r Hd Hlo Hhi) as Hr.
  assert (Hn' : (1 <= inject_Z n)%Q) by (rewrite <- (Zle_Qle 1); lia).
  set (x := (r * inject_Z n)%Q).
  assert (Hx0 : (0 <= x)%Q) by (apply Qmult_le_0_compat; lra).
  destruct (Qlt_le_dec 0 x) as [Hpos|Hzero].
  - pose proof (round_double_error x Hpos) as [Hup Hdown].
    assert (Hxn : (x <= inject_Z n - inject_Z n * pow2 (-53))%Q).
    { unfold x. assert ((inject_Z n - inject_Z n * pow2 (-53))%Q == ((1 - pow2 (-53)) * inject_Z n)%Q)%Q as -> by ring.
      apply Qmult_le_compat_r; lra. }
    pose proof (pow2_pos (-53)) as Hp.
    assert (Hu : (ulp x * (1 # 2) < inject_Z n * pow2 (-53))%Q).
    { unfold ulp.
      replace (Z.max (binary_exponent x) (-1022) - 52)
        with (Z.max (binary_exponent x) (-1022) + 1 + -53) by lia.
      rewrite pow2_add, pow2_add. change (pow2 1) with 2%Q.
      assert ((pow2 (Z.max (binary_exponent x) (-1022)) * 2 * pow2 (-53) * (1 # 2))%Q == (pow2 (Z.max (binary_exponent x) (-1022)) * pow2 (-53))%Q)%Q as -> by ring.
      apply Qmult_lt_compat_r; [exact Hp|].
      pose proof (binary_exponent_spec x Hpos) as [Hel _].
      assert (Hxlt : (x < inject_Z n)%Q).
      { assert (0 < inject_Z n * pow2 (-53))%Q by (apply Qmult_lt_0_compat; lra). lra. }
      destruct (Z.max_spec (binary_exponent x) (-1022)) as [[_ ->]|[_ ->]]; [|lra].
      assert (pow2 (-1022) < 1)%Q by (change 1%Q with (pow2 0); apply pow2_lt; lia).
      lra. }
    split.
    + rewrite <- (Qfloor_Z 0). apply Qfloor_resp_le.
      rewrite (round_double_pos x Hpos).
      apply Qmult_le_0_compat; [|apply Qlt_le_weak, ulp_pos].
      change 0%Q with (inject_Z 0). rewrite <- Zle_Qle.
      apply round_half_even_ge. apply Qle_shift_div_l; [apply ulp_pos|].
      change (inject_Z 0) with 0%Q. lra.
    + rewrite Zlt_Qlt. eapply Qle_lt_trans; [apply Qfloor_le|]. lra.
  - assert (E : (x == 0)%Q) by (apply Qle_antisym; assumption).
    rewrite (round_double_0 x E). change (Qfloor 0) with 0. lia.
Qed.


(** ** Running callbacks *)

Create Rewrite HintDb client.

(** The user callbacks invoked so far, newest first. *)
Definition invocations (tr : list effect) : list (nat * option error) :=
  omap (λ e, match e with Invoke cb err => Some (cb, err) | _ => None end) tr.

Definition cleared (h : option nat) (ts : gmap nat timer) : gmap nat timer :=
  match h with
  | Some id => delete id ts
  | None => ts
  end.

Ltac client_unfold :=
  unfold http_response, register_response, deregister_response, renew_response,
    fetchRegistry_response, register, deregister, renew, fetchRegistry,
    lookupCurrentEurekaHost, locateEurekaHostUsingDns, dns_located, host_resolved,
    token_resolved, token_received, getTokenForClientCredentials,
    region_resolved, host_lookup_resolved, parse_current, currentServiceUrl,
    rotateCurrentServiceUrl, startHeartbeats, stopHeartbeats, setTimeout, setInterval,
    set_timer, call_async, Math_random, log, emit, run, mbind, mret, ST_bind, ST_ret,
    modify, gets, lift, throw in *.

Ltac client_simpl :=
  cbn [serviceUrl instance_status cache heartbeat reregisterTimeout registryFetch
       timers next_timer pending next_call oauth_token random_source random_draws trace
       set_serviceUrl set_instance_status set_cache set_heartbeat set_reregisterTimeout
       set_registryFetch set_timers set_pending set_oauth_token set_random_draws record
       answered expired status_is cleared fst snd t_repeat t_action t_delay] in *.

Section Lifecycle.
Context {P : Platform} (cfg : Config).

Lemma clear_timer_spec h st :
  clear_timer h st = (Ok tt, set_timers (cleared h (timers st)) (next_timer st) st).
Proof. destruct h; [reflexivity|]. by destruct st. Qed.

(** The effects of calling a callback, newest first. *)
Definition invoke_effects (cb : callback) (err : option error) : list effect :=
  match cb, err with
  | Noop, _ => []
  | UserCallback id, _ => [Invoke id err]
  | WarnOnFetchError, Some _ => [Log Warn "Error fetching registries"]
  | WarnOnFetchError, None => []
  end.

Definition recorded (l : list effect) (st : state) : state := foldr record st l.

Lemma invoke_spec cb err st :
  invoke cb err st = (Ok tt, recorded (invoke_effects cb err) st).
Proof. destruct cb, err; reflexivity. Qed.

Lemma recorded_trace l st : trace (recorded l st) = (l ++ trace st)%list.
Proof. induction l as [|e l IH]; [reflexivity|]. cbn. f_equal. exact IH. Qed.

(** Recording effects touches nothing but the trace. *)
Lemma recorded_field {A} (f : state → A) l st :
  (∀ e s, f (record e s) = f s) → f (recorded l st) = f st.
Proof. intros Hf. induction l as [|e l IH]; [done|]. cbn. by rewrite Hf. Qed.

Lemma recorded_serviceUrl l st : serviceUrl (recorded l st) = serviceUrl st.
Proof. by apply recorded_field. Qed.
Lemma recorded_cache l st : cache (recorded l st) = cache st.
Proof. by apply recorded_field. Qed.
Lemma recorded_timers l st : timers (recorded l st) = timers st.
Proof. by apply recorded_field. Qed.
Lemma recorded_next_timer l st : next_timer (recorded l st) = next_timer st.
Proof. by apply recorded_field. Qed.
Lemma recorded_pending l st : pending (recorded l st) = pending st.
Proof. by apply recorded_field. Qed.
Lemma recorded_next_call l st : next_call (recorded l st) = next_call st.
Proof. by apply recorded_field. Qed.
Lemma recorded_heartbeat l st : heartbeat (recorded l st) = heartbeat st.
Proof. by apply recorded_field. Qed.
Lemma recorded_reregisterTimeout l st :
  reregisterTimeout (recorded l st) = reregisterTimeout st.
Proof. by apply recorded_field. Qed.
Lemma recorded_instance_status l st :
  instance_status (recorded l st) = instance_status st.
Proof. by apply recorded_field. Qed.

Hint Rewrite recorded_trace recorded_serviceUrl recorded_cache recorded_timers
  recorded_next_timer recorded_pending recorded_next_call recorded_heartbeat
  recorded_reregisterTimeout recorded_instance_status : client.

(** ** Registration: a response with another status than 204 (C3) *)

(** C3.  When the registration request is answered with a status other than
    204, the callback is called with an error at once, the endpoint ring is
    not rotated, and no timer is set and no call started, so nothing retries:
    only the watchdog timer of the attempt is cleared. *)
Theorem register_rejected_fails_at_once (st : state) (id : nat) (req : request)
    (cb : callback) (connectionTimeout : nat) (statusCode : Z) (body : string) :
  pending st !! id = Some (HttpCall req (ForRegister cb connectionTimeout)) →
  statusCode ≠ 204 →
  let st' := step cfg (HttpReplied id (HttpResponse statusCode body)) st in
  let err := Error ("eureka registration FAILED: status: " ++ pretty statusCode ++
                    " body: " ++ body) in
  trace st' = (invoke_effects cb (Some err) ++ trace st)%list ∧
  serviceUrl st' = serviceUrl st ∧
  timers st' = delete connectionTimeout (timers st) ∧
  next_timer st' = next_timer st ∧
  reregisterTimeout st' = reregisterTimeout st ∧
  heartbeat st' = heartbeat st ∧
  pending st' = delete id (pending st) ∧
  next_call st' = next_call st ∧
  cache st' = cache st.
Proof.
  intros Hpending Hstatus st' err. subst st'.
  unfold step. rewrite Hpending.
  unfold http_response, register_response, run, mbind, ST_bind.
  rewrite clear_timer_spec. cbn [status_is].
  destruct (Z.eqb_spec statusCode 204) as [|_]; [done|].
  rewrite invoke_spec. autorewrite with client. done.
Qed.

(** ** Registration: transport failure (C2) *)


Definition watchdog : timer :=
  {| t_repeat := false; t_delay := 10000; t_action := SlowRegisterWarning |}.










(** ** Heartbeats (C4) *)

(** Whatever the configuration, [register] itself sets the status and the
    watchdog timer and starts the endpoint lookup: it leaves the ring, the
    cache and the heartbeat handle alone and calls no callback in the same
    turn. *)
Lemma register_frame cb st :
  let st' := run (register cfg cb) st in
  serviceUrl st' = serviceUrl st ∧
  timers st' = <[next_timer st := watchdog]> (timers st) ∧
  next_timer st' = S (next_timer st) ∧
  cache st' = cache st ∧
  heartbeat st' = heartbeat st ∧
  instance_status st' = Some "UP" ∧
  invocations (trace st') = invocations (trace st).
Proof.
  intros st'. subst st'. client_unfold. unfold setAuthorizationInHeader.
  repeat (case_match; client_simpl; simplify_eq); done.
Qed.

(** The state in which a failed heartbeat calls [register]: the request is
    answered, the lines are logged, the heartbeat timer is cleared. *)
Definition heartbeat_stopped (logs : list effect) (id : nat) (st : state) : state :=
  set_timers (cleared (heartbeat st) (timers st)) (next_timer st)
    (recorded logs (answered id st)).

(** The log lines of a failed heartbeat, newest first. *)
Definition renew_failure_logs (r : http_reply) : list effect :=
  Log Warn "eureka heartbeat FAILED, will re-register with next server in list" ::
  match r with
  | HttpError _ => [Log LogError "An error in the request occurred."]
  | HttpResponse _ _ => []
  end.

(** C4.  The answer to a heartbeat: status 200 emits [heartbeat] and changes
    nothing else; status 404 clears the heartbeat timer and calls [register]
    with the ring as it is; a transport error or any other status clears the
    heartbeat timer, rotates the ring once and then calls [register]. *)
Theorem heartbeat_outcomes (st : state) (id : nat) (req : request) (r : http_reply) :
  pending st !! id = Some (HttpCall req ForRenew) →
  let st' := step cfg (HttpReplied id r) st in
  (status_is r 200 = true →
     st' = recorded [Emit "heartbeat"; Log Debug "eureka heartbeat success"]
             (answered id st) ∧
     serviceUrl st' = serviceUrl st ∧ timers st' = timers st ∧
     heartbeat st' = heartbeat st ∧ cache st' = cache st ∧
     instance_status st' = instance_status st) ∧
  (status_is r 404 = true →
     st' = run (register cfg Noop)
             (heartbeat_stopped
                [Log Warn "eureka heartbeat FAILED, Re-registering app"] id st) ∧
     serviceUrl st' = serviceUrl st ∧
     timers st' = <[next_timer st := watchdog]> (cleared (heartbeat st) (timers st))) ∧
  (status_is r 200 = false → status_is r 404 = false →
     st' = run (register cfg Noop)
             (set_serviceUrl (rotate (serviceUrl st))
                (heartbeat_stopped (renew_failure_logs r) id st)) ∧
     serviceUrl st' = rotate (serviceUrl st) ∧
     timers st' = <[next_timer st := watchdog]> (cleared (heartbeat st) (timers st))).
Proof.
  intros Hpending st'.
  assert (Hstep : st' = run (renew_response cfg r) (answered id st)).
  { subst st'. unfold step. by rewrite Hpending. }
  split; [|split].
  - intros H200. rewrite Hstep. unfold renew_response. rewrite H200. done.
  - intros H404.
    assert (H200 : status_is r 200 = false).
    { destruct r as [|code body]; [done|]. cbn in *. lia. }
    assert (Heq : st' = run (register cfg Noop)
             (heartbeat_stopped
                [Log Warn "eureka heartbeat FAILED, Re-registering app"] id st)).
    { rewrite Hstep. unfold renew_response. rewrite H200, H404.
      unfold stopHeartbeats, log, modify, gets, run, mbind, ST_bind.
      cbv beta iota. rewrite clear_timer_spec. reflexivity. }
    split; [exact Heq|]. rewrite Heq.
    destruct (register_frame Noop (heartbeat_stopped
                [Log Warn "eureka heartbeat FAILED, Re-registering app"] id st))
      as (-> & -> & _). done.
  - intros H200 H404.
    assert (Heq : st' = run (register cfg Noop)
             (set_serviceUrl (rotate (serviceUrl st))
                (heartbeat_stopped (renew_failure_logs r) id st))).
    { rewrite Hstep. unfold renew_response. rewrite H200, H404.
      unfold stopHeartbeats, rotateCurrentServiceUrl, log, modify, gets, run,
        mbind, ST_bind, mret, ST_ret.
      destruct r; cbv beta iota; rewrite clear_timer_spec; reflexivity. }
    split; [exact Heq|]. rewrite Heq.
    destruct (register_frame Noop (set_serviceUrl (rotate (serviceUrl st))
                (heartbeat_stopped (renew_failure_logs r) id st)))
      as (-> & -> & _).
    unfold heartbeat_stopped. client_simpl. by autorewrite with client.
Qed.

(** ** Fetching the registry (C1, C10) *)

Lemma fetchRegistry_answered st id req cb r :
  pending st !! id = Some (HttpCall req (ForFetchRegistry cb)) →
  step cfg (HttpReplied id r) st = run (fetchRegistry_response cfg cb r) (answered id st).
Proof. intros Hpending. unfold step. by rewrite Hpending. Qed.

(** A fetch that fails. *)
Lemma fetchRegistry_failed st cb r :
  status_is r 200 = false →
  let err := match r with
             | HttpError e => e
             | HttpResponse _ _ => Error "Unable to retrieve registry from Eureka server"
             end in
  let logs := match r with
              | HttpError _ => [Log Warn "Error fetching registry"]
              | HttpResponse _ _ => []
              end in
  run (fetchRegistry_response cfg cb r) st =
  recorded (invoke_effects cb (Some err) ++ logs) st.
Proof.
  intros H200 err logs. unfold fetchRegistry_response. rewrite H200.
  destruct r; unfold log, modify, run, mbind, ST_bind; cbv beta iota;
    rewrite invoke_spec; unfold recorded; by rewrite foldr_app.
Qed.

(** A fetch answered with status 200 whose body parses. *)
Lemma fetchRegistry_parsed st cb body registry :
  JSON_parse body = Some registry →
  run (fetchRegistry_response cfg cb (HttpResponse 200 body)) st =
  match transformRegistry cfg registry
          (record (Log Debug "retrieved registry successfully") st) with
  | (Ok _, st1) => recorded (invoke_effects cb None ++ [Emit "registryUpdated"]) st1
  | (Throw e, st1) => record (Uncaught e) st1
  end.
Proof.
  intros Hparse. unfold fetchRegistry_response.
  cbn [status_is Z.eqb Pos.eqb reply_body js_str from_option id].
  rewrite Hparse. unfold log, emit, modify, run, mbind, ST_bind. cbv beta iota.
  destruct (transformRegistry cfg registry _) as [[[]|e] st1]; [|reflexivity].
  rewrite invoke_spec. unfold recorded. by rewrite foldr_app.
Qed.

(** [transformRegistry] either leaves the cache alone or assigns the cache
    built from the payload and nothing else. *)
Lemma transformRegistry_cache registry st :
  let '(r, st') := transformRegistry cfg registry st in
  trace st' = ((if truthy registry then []
                else [Log Warn "Unable to transform empty registry"]) ++ trace st)%list ∧
  (cache st' = cache st ∨
   ∃ applications application newCache,
     truthy registry = true ∧
     get_prop registry "applications" = Ok applications ∧
     get_prop applications "application" = Ok application ∧
     truthy application = true ∧
     build_cache cfg application = Ok newCache ∧
     r = Ok tt ∧ cache st' = newCache).
Proof.
  unfold transformRegistry, log, modify, mbind, ST_bind, lift, mret, ST_ret.
  destruct (truthy registry) eqn:Htruthy; cbn [negb]; [|by auto].
  destruct (get_prop registry "applications") as [applications|e] eqn:Happs; [|by auto].
  destruct (get_prop applications "application") as [application|e] eqn:Happ;
    [|by auto].
  destruct (truthy application) eqn:Htruthy'; cbn [negb]; [|by auto].
  destruct (build_cache cfg application) as [newCache|e] eqn:Hbuild; [|by auto].
  split; [done|]. right. by exists applications, application, newCache.
Qed.

Lemma transformRegistry_installs registry applications application newCache st :
  truthy registry = true →
  get_prop registry "applications" = Ok applications →
  get_prop applications "application" = Ok application →
  truthy application = true →
  build_cache cfg application = Ok newCache →
  transformRegistry cfg registry st = (Ok tt, set_cache newCache st).
Proof.
  intros Htruthy Happs Happ Htruthy' Hbuild.
  unfold transformRegistry, modify, mbind, ST_bind, lift.
  by rewrite Htruthy, Happs, Happ, Htruthy', Hbuild.
Qed.

Lemma transformRegistry_skips registry st :
  (truthy registry = false ∨
   ∃ applications application,
     get_prop registry "applications" = Ok applications ∧
     get_prop applications "application" = Ok application ∧
     truthy application = false) →
  transformRegistry cfg registry st =
  (Ok tt, recorded (if truthy registry then []
                    else [Log Warn "Unable to transform empty registry"]) st).
Proof.
  unfold transformRegistry, log, modify, mbind, ST_bind, lift, mret, ST_ret.
  intros [Hempty | (applications & application & Happs & Happ & Hnone)].
  - by rewrite Hempty.
  - destruct (truthy registry); [|done]. cbn [negb].
    by rewrite Happs, Happ, Hnone.
Qed.

Lemma fetchRegistry_unparsed st cb body :
  JSON_parse body = None →
  run (fetchRegistry_response cfg cb (HttpResponse 200 body)) st =
  record (Uncaught (SyntaxError "Unexpected token in JSON"))
    (record (Log Debug "retrieved registry successfully") st).
Proof.
  intros Hparse. unfold fetchRegistry_response.
  cbn [status_is Z.eqb Pos.eqb reply_body js_str from_option id].
  rewrite Hparse. reflexivity.
Qed.

Lemma status_is_inv r code :
  status_is r code = true → ∃ body, r = HttpResponse code body.
Proof.
  destruct r as [e|statusCode body]; [done|]. cbn.
  intros ->%Z.eqb_eq. by exists body.
Qed.

(** C1.  A fetch that fails, by a transport error or a status other than
    200, leaves the cache as it was and calls the callback with the error.
    After a response with status 200 the cache is either the old one,
    untouched, or the cache built from the payload alone; when the payload
    has applications and their transformation succeeds, that new cache
    replaces the old one, [registryUpdated] is emitted and the callback is
    called without an error. *)
Theorem fetchRegistry_keeps_or_replaces_cache (st : state) (id : nat) (req : request)
    (cb : callback) (r : http_reply) :
  pending st !! id = Some (HttpCall req (ForFetchRegistry cb)) →
  let st' := step cfg (HttpReplied id r) st in
  (status_is r 200 = false →
     cache st' = cache st ∧
     ∃ err logs,
       trace st' = (invoke_effects cb (Some err) ++ logs ++ trace st)%list ∧
       match r with
       | HttpError e => err = e ∧ logs = [Log Warn "Error fetching registry"]
       | HttpResponse _ _ =>
           err = Error "Unable to retrieve registry from Eureka server" ∧ logs = []
       end) ∧
  (status_is r 200 = true →
     cache st' = cache st ∨
     ∃ body registry applications application,
       r = HttpResponse 200 body ∧
       JSON_parse body = Some registry ∧
       get_prop registry "applications" = Ok applications ∧
       get_prop applications "application" = Ok application ∧
       build_cache cfg application = Ok (cache st')) ∧
  (∀ body registry applications application newCache,
     r = HttpResponse 200 body →
     JSON_parse body = Some registry →
     truthy registry = true →
     get_prop registry "applications" = Ok applications →
     get_prop applications "application" = Ok application →
     truthy application = true →
     build_cache cfg application = Ok newCache →
     cache st' = newCache ∧
     trace st' = (invoke_effects cb None ++
                  Emit "registryUpdated" ::
                  Log Debug "retrieved registry successfully" :: trace st)%list).
Proof.
  intros Hpending st'. subst st'. rewrite (fetchRegistry_answered _ _ _ _ _ Hpending).
  split; [|split].
  - intros H200. rewrite (fetchRegistry_failed _ _ _ H200).
    autorewrite with client. split; [done|].
    eexists _, _. rewrite <- app_assoc. split; [reflexivity|].
    by destruct r.
  - intros [body ->]%status_is_inv.
    destruct (JSON_parse body) as [registry|] eqn:Hparse.
    + rewrite (fetchRegistry_parsed _ _ _ _ Hparse).
      pose proof (transformRegistry_cache registry
        (record (Log Debug "retrieved registry successfully") (answered id st))) as H.
      destruct (transformRegistry cfg registry _) as [[[]|e] st1];
        destruct H as [_ [Hsame | (apps & app & new & _ & Happs & Happ & _ & Hnew & _ & Hc)]];
        autorewrite with client; client_simpl; auto.
      * right. exists body, registry, apps, app. by rewrite Hc.
      * right. exists body, registry, apps, app. by rewrite Hc.
    + rewrite (fetchRegistry_unparsed _ _ _ Hparse). by left.
  - intros body registry apps app newCache -> Hparse Htruthy Happs Happ Htruthy' Hbuild.
    rewrite (fetchRegistry_parsed _ _ _ _ Hparse).
    rewrite (transformRegistry_installs _ _ _ _ _ Htruthy Happs Happ Htruthy' Hbuild).
    autorewrite with client. client_simpl. rewrite <- app_assoc. done.
Qed.

(** C10.  When a fetch is answered with status 200 and the parsed body is
    empty (falsy), or its [applications] has no (or a falsy) [application],
    the cache stays as it was, and the client still emits [registryUpdated]
    and calls the callback without an error. *)
Theorem fetch_without_applications_keeps_cache (st : state) (id : nat)
    (req : request) (cb : callback) (body : string) (registry : value) :
  pending st !! id = Some (HttpCall req (ForFetchRegistry cb)) →
  JSON_parse body = Some registry →
  (truthy registry = false ∨
   ∃ applications application,
     get_prop registry "applications" = Ok applications ∧
     get_prop applications "application" = Ok application ∧
     truthy application = false) →
  let st' := step cfg (HttpReplied id (HttpResponse 200 body)) st in
  cache st' = cache st ∧
  trace st' = (invoke_effects cb None ++
               Emit "registryUpdated" ::
               (if truthy registry then []
                else [Log Warn "Unable to transform empty registry"]) ++
               Log Debug "retrieved registry successfully" :: trace st)%list ∧
  serviceUrl st' = serviceUrl st ∧
  timers st' = timers st.
Proof.
  intros Hpending Hparse Hskip st'. subst st'.
  rewrite (fetchRegistry_answered _ _ _ _ _ Hpending).
  rewrite (fetchRegistry_parsed _ _ _ _ Hparse).
  rewrite (transformRegistry_skips _ _ Hskip).
  autorewrite with client. client_simpl. rewrite <- app_assoc. done.
Qed.

(** ** Endpoint lookup: DNS failures and token failures (C6, C7) *)

(** The callback of [lookupCurrentEurekaHost] for the DNS result does not
    depend on the error it is given. *)
Lemma dns_located_ignores_error k err resolvedHost :
  dns_located cfg k err resolvedHost = dns_located cfg k None resolvedHost.
Proof. reflexivity. Qed.

(** Without [ec2Region], the lookup hands its caller no error but the
    service URL formatted with an [undefined] host. *)
Lemma lookup_without_region k u st :
  useDns cfg = true → region_missing (ec2Region cfg) = true →
  oAuth2Enabled cfg = false →
  ring_current (serviceUrl st) = Some u →
  lookupCurrentEurekaHost cfg k st =
  host_resolved cfg k None (Some (url_format (with_host (url_parse u) None))) VNull st.
Proof.
  intros Hdns Hregion Hoauth Hcurrent.
  unfold lookupCurrentEurekaHost, locateEurekaHostUsingDns, dns_located, parse_current,
    currentServiceUrl, gets, mbind, ST_bind, mret, ST_ret.
  rewrite Hdns, Hregion, Hoauth, Hcurrent. cbv beta iota. by rewrite Hcurrent.
Qed.

(** When the token request fails, the caller of the lookup is resumed with
    the token that [OAuth2Util] holds, whatever it is. *)
Lemma token_failure_hands_stored_token resume k e id st :
  pending st !! id = Some (TokenCall resume k) →
  step cfg (TokenReplied id (TokenError e)) st =
  run (token_resolved cfg resume k (Some e) (oauth_token st))
    (record (Log Warn
       "Error occurred while getting Access Token via OAuth2 Client Credentials")
       (answered id st)).
Proof. intros Hpending. unfold step. by rewrite Hpending. Qed.

End Lifecycle.

(** ** Runs of a sample client *)

Definition sample_ring : ring := [Some "http://a/"; Some "http://b/"; Some "http://c/"].
Definition sample_random : nat → Q := λ _, (1 # 2)%Q.

Definition sample_cache : Cache :=
  {| cache_app := {["OLD" := [instance_of "old" "UP"]]};
     cache_vip := {["old" := [instance_of "old" "UP"]]} |}.

(** A client that holds a cache from an earlier fetch. *)
Definition sample_client : state :=
  set_cache sample_cache (initial_state sample_ring sample_random).

(** [register(cb1)] was called: the POST is call 0, the watchdog timer 0. *)
Definition registering : state :=
  run (register (P := sample_platform) static_config (UserCallback 1)) sample_client.

(** The registration succeeded (heartbeat timer 1) and the first heartbeat
    was sent: the PUT is call 1. *)
Definition renewing : state :=
  step (P := sample_platform) static_config (TimerFired 1)
    (step (P := sample_platform) static_config
       (HttpReplied 0 (HttpResponse 204 "no content")) registering).

(** [fetchRegistry(cb2)] was called: the GET is call 0. *)
Definition fetching : state :=
  run (fetchRegistry (P := sample_platform) static_config (UserCallback 2)) sample_client.



Lemma register_rejected_fails_at_once_witness :
  let st' := step (P := sample_platform) static_config
               (HttpReplied 0 (HttpResponse 500 "busy")) registering in
  invocations (trace st') =
    [(1%nat, Some (Error "eureka registration FAILED: status: 500 body: busy"))] ∧
  serviceUrl st' = sample_ring ∧
  timers st' = ∅ ∧
  pending st' = ∅.
Proof.
  intros st'.
  destruct (register_rejected_fails_at_once (P := sample_platform) static_config
              registering 0
              {| method := POST; url := "http://a/svc"; headers := None |}
              (UserCallback 1) 0 500 "busy")
    as (Htrace & Hring & Htimers & _ & _ & _ & Hpending & _).
  - vm_compute. reflexivity.
  - lia.
  - fold st' in Htrace, Hring, Htimers, Hpending.
    rewrite Htrace, Hring, Htimers, Hpending. repeat split; vm_compute; reflexivity.
Defined.

Lemma heartbeat_outcomes_witness :
  let gone := step (P := sample_platform) static_config
                (HttpReplied 1 (HttpResponse 404 "gone")) renewing in
  let failed := step (P := sample_platform) static_config
                  (HttpReplied 1 (HttpError (Error "ECONNRESET"))) renewing in
  (serviceUrl gone = sample_ring ∧ timers gone = {[2%nat := watchdog]}) ∧
  (serviceUrl failed = [Some "http://b/"; Some "http://c/"; Some "http://a/"] ∧
   timers failed = {[2%nat := watchdog]}).
Proof.
  intros gone failed. split.
  - destruct (heartbeat_outcomes (P := sample_platform) static_config renewing 1
                {| method := PUT; url := "http://a/svc/host-1"; headers := None |}
                (HttpResponse 404 "gone")) as (_ & H404 & _);
      [vm_compute; reflexivity|].
    destruct (H404 eq_refl) as (_ & Hring & Htimers).
    fold gone in Hring, Htimers. rewrite Hring, Htimers.
    split; vm_compute; reflexivity.
  - destruct (heartbeat_outcomes (P := sample_platform) static_config renewing 1
                {| method := PUT; url := "http://a/svc/host-1"; headers := None |}
                (HttpError (Error "ECONNRESET"))) as (_ & _ & Hother);
      [vm_compute; reflexivity|].
    destruct (Hother eq_refl eq_refl) as (_ & Hring & Htimers).
    fold failed in Hring, Htimers. rewrite Hring, Htimers.
    split; vm_compute; reflexivity.
Defined.

Lemma fetchRegistry_keeps_or_replaces_cache_witness :
  let failed := step (P := sample_platform) static_config
                  (HttpReplied 0 (HttpResponse 503 "unavailable")) fetching in
  let fetched := step (P := sample_platform) static_config
                   (HttpReplied 0 (HttpResponse 200 "one-app")) fetching in
  (cache failed = sample_cache ∧
   invocations (trace failed) =
     [(2%nat, Some (Error "Unable to retrieve registry from Eureka server"))]) ∧
  (cache_app (cache fetched) !! "OLD" = None ∧
   cache_app (cache fetched) !! "SVC" = Some [instance_of "v1" "UP"] ∧
   cache_vip (cache fetched) !! "v1" = Some [instance_of "v1" "UP"] ∧
   invocations (trace fetched) = [(2%nat, None)]).
Proof.
  intros failed fetched. split.
  - destruct (fetchRegistry_keeps_or_replaces_cache (P := sample_platform)
                static_config fetching 0
                {| method := GET; url := "http://a/";
                   headers := Some {["Accept" := "application/json"]} |}
                (UserCallback 2) (HttpResponse 503 "unavailable"))
      as (Hfailed & _); [vm_compute; reflexivity|].
    destruct (Hfailed eq_refl) as (Hcache & err & logs & Htrace & -> & ->).
    fold failed in Hcache, Htrace. rewrite Hcache, Htrace.
    split; vm_compute; reflexivity.
  - destruct (fetchRegistry_keeps_or_replaces_cache (P := sample_platform)
                static_config fetching 0
                {| method := GET; url := "http://a/";
                   headers := Some {["Accept" := "application/json"]} |}
                (UserCallback 2) (HttpResponse 200 "one-app"))
      as (_ & _ & Hfetched); [vm_compute; reflexivity|].
    destruct (Hfetched "one-app"
                (registry_of (VArr [application_of "svc" (VArr [instance_of "v1" "UP"])]))
                (VObj [("application",
                        VArr [application_of "svc" (VArr [instance_of "v1" "UP"])])])
                (VArr [application_of "svc" (VArr [instance_of "v1" "UP"])])
                (indexed "SVC" "v1" [instance_of "v1" "UP"]
                   empty_cache))
      as (Hcache & Htrace); try reflexivity.
    fold fetched in Hcache, Htrace. rewrite Hcache, Htrace.
    repeat split; vm_compute; reflexivity.
Defined.

Lemma fetch_without_applications_keeps_cache_witness :
  let empty := step (P := sample_platform) static_config
                 (HttpReplied 0 (HttpResponse 200 "null")) fetching in
  let bare := step (P := sample_platform) static_config
                (HttpReplied 0 (HttpResponse 200 "no-application")) fetching in
  (cache empty = sample_cache ∧
   trace empty = [Invoke 2 None; Emit "registryUpdated";
                  Log Warn "Unable to transform empty registry";
                  Log Debug "retrieved registry successfully"]) ∧
  (cache bare = sample_cache ∧
   trace bare = [Invoke 2 None; Emit "registryUpdated";
                 Log Debug "retrieved registry successfully"]).
Proof.
  intros empty bare. split.
  - destruct (fetch_without_applications_keeps_cache (P := sample_platform)
                static_config fetching 0
                {| method := GET; url := "http://a/";
                   headers := Some {["Accept" := "application/json"]} |}
                (UserCallback 2) "null" VNull)
      as (Hcache & Htrace & _);
      [vm_compute; reflexivity | reflexivity | by left |].
    fold empty in Hcache, Htrace. rewrite Hcache, Htrace.
    split; vm_compute; reflexivity.
  - destruct (fetch_without_applications_keeps_cache (P := sample_platform)
                static_config fetching 0
                {| method := GET; url := "http://a/";
                   headers := Some {["Accept" := "application/json"]} |}
                (UserCallback 2) "no-application" (VObj [("applications", VObj [])]))
      as (Hcache & Htrace & _);
      [vm_compute; reflexivity | reflexivity
      | right; by exists (VObj []), VUndef |].
    fold bare in Hcache, Htrace. rewrite Hcache, Htrace.
    split; vm_compute; reflexivity.
Defined.

(** ** DNS discovery failures reach no caller (C6) *)

(** The registry request that [fetchRegistry] sends to [u] without a token. *)
Definition registry_request (u : string) : request :=
  {| method := GET; url := u; headers := Some {["Accept" := "application/json"]} |}.

Definition discovery_client : state :=
  initial_state [Some "eureka.example/"; Some "backup.example/"] sample_random.

(** C6 at its failing inputs.  With DNS discovery on, [fetchRegistry(cb1)]
    under a missing [ec2Region], under a failing first TXT lookup and under
    a failing second TXT lookup never calls [cb1] with an error: each time
    the GET is sent to the URL that [url.format] prints for an [undefined]
    host, here the static host of the ring; after the failing second lookup
    the handler goes on to spread the [undefined] results and throws. *)
Lemma dns_failure_not_surfaced :
  let cb := ForFetchRegistry (UserCallback 1) in
  let no_region :=
    run (fetchRegistry (P := sample_platform) dns_config (UserCallback 1))
      discovery_client in
  let looking_up :=
    run (fetchRegistry (P := sample_platform) dns_region_config (UserCallback 1))
      discovery_client in
  let first_failed :=
    step (P := sample_platform) dns_region_config
      (DnsReplied 0 (DnsError (Error "ENOTFOUND"))) looking_up in
  let second_lookup :=
    step (P := sample_platform) dns_region_config
      (DnsReplied 0 (DnsRecords [["r1.example"]])) looking_up in
  let second_failed :=
    step (P := sample_platform) dns_region_config
      (DnsReplied 1 (DnsError (Error "ENOTFOUND"))) second_lookup in
  (invocations (trace no_region) = [] ∧
   pending no_region !! 0%nat = Some (HttpCall (registry_request "eureka.example/") cb)) ∧
  (pending looking_up !! 0%nat =
     Some (DnsCall "txt.r1.eureka.example/" RegionLookup cb) ∧
   invocations (trace first_failed) = [] ∧
   pending first_failed !! 1%nat =
     Some (HttpCall (registry_request "eureka.example/") cb)) ∧
  (pending second_lookup !! 1%nat = Some (DnsCall "txt.r1.example" HostLookup cb) ∧
   invocations (trace second_failed) = [] ∧
   pending second_failed !! 2%nat =
     Some (HttpCall (registry_request "eureka.example/") cb) ∧
   trace second_failed =
     [Uncaught (TypeError "undefined is not iterable");
      Log Debug "Found Eureka Server @ ";
      Log Warn "Failed to locate DNS record for Eureka"]).
Proof. repeat split; vm_compute; reflexivity. Qed.

(** ** A failed token request still sends a header (C7) *)

Definition token_client : state :=
  initial_state [Some "eureka.example/"] sample_random.

(** C7 at its failing input.  With a token provider, [register(cb1)] asks
    for a token first.  When that request fails, the registration is sent
    all the same, and it carries an [Authorization] header: made from the
    empty token object of [OAuth2Util] when no token was ever obtained, and
    from the token of the last success otherwise. *)
Lemma token_failure_still_sends_authorization :
  let cb := ForRegister (UserCallback 1) 0 in
  let asking :=
    run (register (P := sample_platform) oauth_config (UserCallback 1)) token_client in
  let failed :=
    step (P := sample_platform) oauth_config
      (TokenReplied 0 (TokenError (Error "token endpoint down"))) asking in
  let renewing_with_token :=
    run (renew (P := sample_platform) oauth_config)
      (step (P := sample_platform) oauth_config
         (TokenReplied 0 (TokenResult (VObj [("access_token", VStr "t1")]))) asking) in
  let failed_later :=
    step (P := sample_platform) oauth_config
      (TokenReplied 2 (TokenError (Error "token endpoint down"))) renewing_with_token in
  (pending asking !! 0%nat = Some (TokenCall CurrentUrl cb) ∧
   pending failed !! 1%nat =
     Some (HttpCall {| method := POST; url := "eureka.example/svc";
                       headers := Some {["Authorization" := "Bearer undefined"]} |} cb)) ∧
  (pending renewing_with_token !! 2%nat = Some (TokenCall CurrentUrl ForRenew) ∧
   pending failed_later !! 3%nat =
     Some (HttpCall {| method := PUT; url := "eureka.example/svc/host-1";
                       headers := Some {["Authorization" := "Bearer t1"]} |} ForRenew)).
Proof. repeat split; vm_compute; reflexivity. Qed.

(** ** An object without [applications]

    A body that parses to a truthy value without [applications] is not an
    empty registry for [transformRegistry]: reading [.application] of
    [undefined] throws, so the cache stays, nothing is emitted and the
    callback is not called. *)
Example fetch_object_without_applications_throws :
  let st' := step (P := sample_platform) static_config
               (HttpReplied 0 (HttpResponse 200 "empty-object")) fetching in
  cache st' = sample_cache ∧
  trace st' =
    [Uncaught (TypeError "Cannot read property 'application' of undefined");
     Log Debug "retrieved registry successfully"].
Proof. split; vm_compute; reflexivity. Qed.

(** * Beyond the claims *)

(** ** The current endpoint after any number of rotations *)

Lemma iter_rotate_length (k : nat) (r : ring) :
  validate_serviceUrl r = true → length (Nat.iter k rotate r) = length r.
Proof.
  intros Hv. induction k as [|k IH]; [reflexivity|].
  rewrite Nat.iter_succ, rotate_length; [exact IH|].
  clear IH. induction k as [|k IH]; [exact Hv|]. rewrite Nat.iter_succ.
  by apply rotate_validated.
Qed.

Lemma iter_rotate_full (q : nat) (r : ring) :
  validate_serviceUrl r = true → Nat.iter (q * length r) rotate r = r.
Proof.
  intros Hv. induction q as [|q IH]; [reflexivity|].
  cbn [Nat.mul]. rewrite Nat.iter_add, IH, iter_rotate by lia.
  by rewrite drop_all, firstn_all.
Qed.

(** X1.  After [k] rotations the current endpoint is entry [k mod n] of the ring
    of [n] URLs: every URL comes back into use after one full cycle. *)
Theorem current_after_rotations (k : nat) (r : ring) (u : option string) :
  validate_serviceUrl r = true →
  r !! (k mod length r)%nat = Some u →
  ring_current (Nat.iter k rotate r) = u.
Proof.
  intros Hv Hu.
  assert (Hn : length r ≠ 0%nat) by (destruct r; [done | cbn; lia]).
  pose proof (Nat.div_mod_eq k (length r)) as Hk.
  pose proof (Nat.mod_upper_bound k (length r) Hn) as Hlt.
  revert Hu Hk Hlt. generalize (k mod length r)%nat (k / length r)%nat.
  intros m q Hu -> Hlt.
  rewrite Nat.add_comm, Nat.iter_add, (Nat.mul_comm (length r)), iter_rotate_full by done.
  rewrite iter_rotate by lia.
  rewrite (drop_S r u _ Hu). reflexivity.
Qed.

Lemma current_after_rotations_witness :
  ring_current (Nat.iter 7 rotate [Some "http://a/"; Some "http://b/"; Some "http://c/"])
  = Some "http://b/".
Proof.
  apply (current_after_rotations 7 [Some "http://a/"; Some "http://b/"; Some "http://c/"]);
    reflexivity.
Defined.

(** ** The configuration at construction *)

(** The fields of [config.eureka] that [rearrangeConfig] and
    [validateConfig] read, after the merge of the configuration sources. *)
Record EurekaOptions : Type := {
  opt_host : value;
  opt_port : value;
  opt_servicePath : value;
  opt_ssl : value;
  opt_serviceUrl : ring;
}.

(** The fields of [config.instance] that [validateConfig] requires. *)
Record InstanceOptions : Type := {
  opt_app : value;
  opt_vipAddress : value;
  opt_instance_port : value;
  opt_dataCenterInfo : value;
}.

(** [rearrangeConfig]: [host], [port] and [servicePath] become one more
    service URL and are deleted. *)
Definition rearrangeConfig (e : EurekaOptions) : EurekaOptions :=
  let urls :=
    if (truthy (opt_host e) && truthy (opt_port e) && truthy (opt_servicePath e))%bool then
      let protocol := if truthy (opt_ssl e) then "https" else "http" in
      push (opt_serviceUrl e)
        (Some (protocol ++ "://" ++ to_string (opt_host e) ++ ":" ++
               to_string (opt_port e) ++ to_string (opt_servicePath e)))
    else opt_serviceUrl e in
  {| opt_host := VUndef; opt_port := VUndef; opt_servicePath := VUndef;
     opt_ssl := opt_ssl e; opt_serviceUrl := urls |}.

Definition double_quote : string := String (ascii_of_nat 34) EmptyString.

(** [validate(namespace, key)] inside [validateConfig] *)
Definition validate (namespace key : string) (v : value) : res unit :=
  if negb (truthy v) then
    Throw (TypeError ("Missing " ++ double_quote ++ namespace ++ "." ++ key ++
                      double_quote ++ " config value."))
  else Ok tt.

(** [validateConfig] *)
Definition validateConfig (i : InstanceOptions) (e : EurekaOptions) : res unit :=
  validate "instance" "app" (opt_app i);;
  validate "instance" "vipAddress" (opt_vipAddress i);;
  validate "instance" "port" (opt_instance_port i);;
  validate "instance" "dataCenterInfo" (opt_dataCenterInfo i);;
  if Nat.eqb (length (opt_serviceUrl e)) 0 then
    Throw (TypeError ("At least one eureka service url must be specified " ++
                      "with either 'host' and 'port' or 'serviceUrl'"))
  else Ok tt.

(** X2.  [rearrangeConfig] only ever adds one URL, behind the listed ones, so a
    listed service URL stays the first endpoint; without a complete
    [host]/[port]/[servicePath] triple the list is left as it is.  The
    triple is consumed: rearranging again adds nothing. *)
Theorem rearrangeConfig_appends (e : EurekaOptions) :
  let complete :=
    (truthy (opt_host e) && truthy (opt_port e) && truthy (opt_servicePath e))%bool in
  let built :=
    (if truthy (opt_ssl e) then "https" else "http") ++ "://" ++
    to_string (opt_host e) ++ ":" ++ to_string (opt_port e) ++
    to_string (opt_servicePath e) in
  opt_serviceUrl (rearrangeConfig e) =
    (opt_serviceUrl e ++ (if complete then [Some built] else []))%list ∧
  (opt_serviceUrl e ≠ [] →
   ring_current (opt_serviceUrl (rearrangeConfig e)) = ring_current (opt_serviceUrl e)) ∧
  (complete = true → validate_serviceUrl (opt_serviceUrl (rearrangeConfig e)) = true) ∧
  rearrangeConfig (rearrangeConfig e) = rearrangeConfig e.
Proof.
  intros complete built. subst complete built.
  split; [|split; [|split; [|reflexivity]]]; revert e; intros e;
    unfold rearrangeConfig; cbn [opt_serviceUrl];
  destruct (truthy (opt_host e) && truthy (opt_port e) && truthy (opt_servicePath e))%bool.
  - unfold push. by destruct (truthy (opt_ssl e)).
  - by rewrite app_nil_r.
  - intros Hne. unfold push. by destruct (opt_serviceUrl e).
  - done.
  - intros _. unfold validate_serviceUrl, push. rewrite length_app. cbn.
    by rewrite Nat.add_1_r.
  - done.
Qed.

(** X3.  [validateConfig] accepts a configuration exactly when the four instance
    fields are truthy and there is a service URL; a port of 0 or an empty
    application name counts as missing. *)
Theorem validateConfig_accepts (i : InstanceOptions) (e : EurekaOptions) :
  validateConfig i e = Ok tt ↔
  truthy (opt_app i) = true ∧ truthy (opt_vipAddress i) = true ∧
  truthy (opt_instance_port i) = true ∧ truthy (opt_dataCenterInfo i) = true ∧
  validate_serviceUrl (opt_serviceUrl e) = true.
Proof.
  unfold validateConfig, validate, validate_serviceUrl, mbind, res_bind.
  destruct (truthy (opt_app i)), (truthy (opt_vipAddress i)),
    (truthy (opt_instance_port i)), (truthy (opt_dataCenterInfo i)),
    (Nat.eqb (length (opt_serviceUrl e)) 0); cbn;
    (split; [try done | by intros (? & ? & ? & ? & ?)]).
Qed.

(** X4.  The first missing field, in the order [app], [vipAddress], [port],
    [dataCenterInfo], is the one the error names; the service URLs are looked
    at last. *)
Theorem validateConfig_reports_first_missing (i : InstanceOptions) (e : EurekaOptions) :
  let missing key :=
    Throw (TypeError ("Missing " ++ double_quote ++ "instance." ++ key ++
                      double_quote ++ " config value.")) in
  (truthy (opt_app i) = false → validateConfig i e = missing "app") ∧
  (truthy (opt_app i) = true → truthy (opt_vipAddress i) = false →
   validateConfig i e = missing "vipAddress") ∧
  (truthy (opt_app i) = true → truthy (opt_vipAddress i) = true →
   truthy (opt_instance_port i) = false → validateConfig i e = missing "port") ∧
  (truthy (opt_app i) = true → truthy (opt_vipAddress i) = true →
   truthy (opt_instance_port i) = true → truthy (opt_dataCenterInfo i) = false →
   validateConfig i e = missing "dataCenterInfo").
Proof.
  intros missing. subst missing.
  unfold validateConfig, validate, mbind, res_bind.
  destruct (truthy (opt_app i)), (truthy (opt_vipAddress i)),
    (truthy (opt_instance_port i)), (truthy (opt_dataCenterInfo i)); done.
Qed.

(** A configuration with [host], [port] and [servicePath] and no listed URL
    passes validation once rearranged, and its ring is the one built URL. *)
Example host_port_configuration_validates :
  let e := {| opt_host := VStr "eureka.local"; opt_port := VNum 8761;
              opt_servicePath := VStr "/eureka/apps/"; opt_ssl := VUndef;
              opt_serviceUrl := [] |} in
  let i := {| opt_app := VStr "svc"; opt_vipAddress := VStr "svc.vip";
              opt_instance_port := VNum 8080; opt_dataCenterInfo := VObj [] |} in
  validateConfig i e = Throw (TypeError ("At least one eureka service url must be " ++
    "specified with either 'host' and 'port' or 'serviceUrl'")) ∧
  validateConfig i (rearrangeConfig e) = Ok tt ∧
  opt_serviceUrl (rearrangeConfig e) = [Some "http://eureka.local:8761/eureka/apps/"].
Proof. repeat split; vm_compute; reflexivity. Qed.

(** ** What the cache holds *)

Section CacheContents.
Context {P : Platform} (cfg : Config).

(** [instance.status === 'UP'], for an instance whose [status] can be read. *)
Definition is_up (instance : value) : bool :=
  match get_prop instance "status" with
  | Ok status => strict_eq_str status "UP"
  | Throw _ => false
  end.

Definition readable (v : value) : Prop := v ≠ VUndef ∧ v ≠ VNull.

Lemma readable_get_prop v k : readable v → ∃ w, get_prop v k = Ok w.
Proof. intros [Hu Hn]. destruct v; try done; eauto. Qed.

Lemma filter_res_valid (l kept : list value) :
  filter_res (validateInstance cfg) l = Ok kept →
  Forall (λ i, validateInstance cfg i = Ok true) kept.
Proof.
  revert kept. induction l as [|x l IH]; intros kept H.
  - injection H as <-. constructor.
  - cbn [filter_res] in H. unfold mbind, res_bind in H.
    destruct (validateInstance cfg x) as [b|e] eqn:Hx; [|discriminate].
    destruct (filter_res (validateInstance cfg) l) as [kept'|e]; [|discriminate].
    injection H as <-. specialize (IH kept' eq_refl).
    destruct b; [by constructor | exact IH].
Qed.

(** X5.  The instance filter over an array of instance objects: with
    [filterUpInstances] on it keeps, in order, exactly the instances whose
    status is the string [UP]; with it off it keeps the array as it is. *)
Theorem instance_filter_keeps_up (l : list value) :
  Forall readable l →
  filter_res (validateInstance cfg) l =
  Ok (if filterUpInstances cfg then List.filter is_up l else l).
Proof.
  intros Hl. induction Hl as [|x l Hx _ IH]; [by destruct (filterUpInstances cfg)|].
  cbn [filter_res List.filter]. unfold mbind, res_bind. rewrite IH.
  unfold validateInstance, is_up, mbind, res_bind.
  destruct (readable_get_prop x "status" Hx) as [status ->].
  destruct (filterUpInstances cfg); cbn [negb]; [|reflexivity].
  by destruct (strict_eq_str status "UP").
Qed.

(** Every list of a cache satisfies [Q]. *)
Definition cache_lists (Q : list value → Prop) (c : Cache) : Prop :=
  (∀ K l, cache_app c !! K = Some l → Q l) ∧ (∀ K l, cache_vip c !! K = Some l → Q l).

Lemma set_lists Q K V l c :
  Q l → cache_lists Q c → cache_lists Q (indexed K V l c).
Proof.
  intros Hl [Happ Hvip]. split; intros K' l'; cbn [indexed cache_app cache_vip];
    rewrite lookup_insert; case_decide; naive_solver.
Qed.

Lemma transformApp_valid app c r c' :
  transformApp cfg app c = (r, c') →
  cache_lists (Forall (λ i, validateInstance cfg i = Ok true)) c →
  r = Ok tt →
  cache_lists (Forall (λ i, validateInstance cfg i = Ok true)) c'.
Proof.
  unfold transformApp, mbind, ST_bind, lift, set_app, set_vip, modify, mret, ST_ret.
  intros H Hc ->.
  destruct (get_prop app "instance") as [instance|]; [|discriminate].
  destruct (get_prop instance "length") as [len|]; [|discriminate].
  destruct (truthy len).
  - destruct (array_filter instance (validateInstance cfg)) as [kept|] eqn:Hkept;
      [|discriminate].
    destruct (get_prop app "name") as [name|]; [|discriminate].
    destruct (call_toUpperCase name) as [key|]; [|discriminate].
    destruct (get_index instance 0) as [first|]; [|discriminate].
    destruct (get_prop first "vipAddress") as [vip|]; [|discriminate].
    injection H as <-.
    apply (set_lists _ key (to_string vip) kept c); [|exact Hc].
    destruct instance; try discriminate. by apply (filter_res_valid elems).
  - destruct (validateInstance cfg instance) as [[]|] eqn:Hvalid; try discriminate.
    + destruct (get_prop instance "vipAddress") as [vip|]; [|discriminate].
      destruct (get_prop app "name") as [name|]; [|discriminate].
      destruct (call_toUpperCase name) as [key|]; [|discriminate].
      injection H as <-.
      destruct Hc as [Happ Hvip].
      split; intros K' l'; cbn [cache_app cache_vip];
        rewrite lookup_insert; case_decide; try naive_solver;
        intros [= <-]; by repeat constructor.
    + by injection H as <-.
Qed.

Lemma fill_valid apps : ∀ c r c',
  fill cfg apps c = (Ok r, c') →
  cache_lists (Forall (λ i, validateInstance cfg i = Ok true)) c →
  cache_lists (Forall (λ i, validateInstance cfg i = Ok true)) c'.
Proof.
  induction apps as [|a apps IH]; intros c r c' H Hc.
  - cbn in H. by injection H as _ <-.
  - cbn [fill forEach] in H. unfold mbind, ST_bind in H.
    destruct (transformApp cfg a c) as [[[]|e] c0] eqn:Ha; [|discriminate].
    apply (IH c0 r c' H). by apply (transformApp_valid a c (Ok tt) c0).
Qed.

(** X6.  With [filterUpInstances] on, a cache built from a payload never holds an
    instance whose status is not [UP], under either mapping, whatever the
    payload. *)
Theorem built_cache_holds_only_up (application : value) (newCache : Cache)
    (K : string) (l : list value) (i : value) :
  filterUpInstances cfg = true →
  build_cache cfg application = Ok newCache →
  cache_app newCache !! K = Some l ∨ cache_vip newCache !! K = Some l →
  i ∈ l →
  get_prop i "status" = Ok (VStr "UP").
Proof.
  intros Hfilter Hbuild Hl Hi. rewrite build_cache_fill in Hbuild.
  destruct (fill cfg (entries application) empty_cache) as [[r|e] c] eqn:Hfill;
    [|discriminate].
  injection Hbuild as ->.
  assert (Hvalid : cache_lists (Forall (λ i, validateInstance cfg i = Ok true)) newCache).
  { apply (fill_valid _ _ _ _ Hfill). split; intros K' l'; cbn [empty_cache cache_app cache_vip];
      by rewrite lookup_empty. }
  assert (Hall : Forall (λ i, validateInstance cfg i = Ok true) l).
  { destruct Hvalid as [Happ Hvip]. destruct Hl; eauto. }
  rewrite Forall_forall in Hall. specialize (Hall i Hi).
  unfold validateInstance, mbind, res_bind in Hall. rewrite Hfilter in Hall.
  cbn [negb] in Hall.
  destruct (get_prop i "status") as [status|]; [|discriminate].
  injection Hall as Hup. destruct status; try discriminate.
  cbn in Hup. by apply String.eqb_eq in Hup as ->.
Qed.

End CacheContents.

Lemma instance_filter_keeps_up_witness :
  filter_res (validateInstance static_config)
    [instance_of "v1" "UP"; instance_of "v1" "DOWN"; instance_of "v1" "STARTING";
     instance_of "v2" "UP"] =
  Ok [instance_of "v1" "UP"; instance_of "v2" "UP"].
Proof.
  apply (instance_filter_keeps_up static_config
           [instance_of "v1" "UP"; instance_of "v1" "DOWN"; instance_of "v1" "STARTING";
            instance_of "v2" "UP"]).
  repeat constructor; done.
Defined.

Lemma built_cache_holds_only_up_witness :
  get_prop (instance_of "v1" "UP") "status" = Ok (VStr "UP").
Proof.
  apply (built_cache_holds_only_up (P := sample_platform) static_config
           (VArr [application_of "svc"
                    (VArr [instance_of "v1" "UP"; instance_of "v2" "DOWN"])])
           (indexed "SVC" "v1" [instance_of "v1" "UP"] empty_cache)
           "SVC" [instance_of "v1" "UP"] (instance_of "v1" "UP")).
  - reflexivity.
  - vm_compute. reflexivity.
  - left. vm_compute. reflexivity.
  - apply list_elem_of_here.
Defined.

(** ** Looking instances up *)

Section Lookups.
Context {P : Platform} (cfg : Config).

Lemma getInstancesByAppId_found appId st :
  appId ≠ EmptyString →
  fst (getInstancesByAppId (VStr appId) st) =
  Ok (default [] (cache_app (cache st) !! toUpperCase appId)).
Proof.
  intros Hne. unfold getInstancesByAppId. cbn [truthy].
  destruct (String.eqb_spec appId ""); [done|]. cbn [negb call_toUpperCase].
  unfold lift, gets, log, modify, mbind, ST_bind, mret, ST_ret. cbv beta iota.
  by destruct (default [] (cache_app (cache st) !! toUpperCase appId)).
Qed.

(** X7.  What [transformApp] stores for an application, the two lookups find:
    by the application name in any spelling that upper-cases to the same key,
    and by the VIP address under which the entry was stored. *)
Theorem stored_entry_is_found (app : value) (K V : string) (kept : list value)
    (c : Cache) (st : state) :
  indexed_as cfg app K V kept →
  cache st = snd (transformApp cfg app c) →
  (∀ appId, appId ≠ EmptyString → toUpperCase appId = K →
     fst (getInstancesByAppId (VStr appId) st) = Ok kept) ∧
  (∀ vipAddress, truthy vipAddress = true → to_string vipAddress = V →
     fst (getInstancesByVipAddress vipAddress st) = Ok (Instances kept)).
Proof.
  intros Happ Hcache.
  rewrite (transformApp_indexed cfg app K V kept c Happ) in Hcache. cbn [snd] in Hcache.
  split.
  - intros appId Hne <-. rewrite getInstancesByAppId_found, Hcache by done.
    cbn [indexed cache_app]. by rewrite lookup_insert_eq.
  - intros vip Htruthy <-. rewrite getInstancesByVipAddress_found, Hcache by done.
    cbn [indexed cache_vip].
    by rewrite (read_member_own _ _ kept) by apply lookup_insert_eq.
Qed.

(** X8.  A lookup without a key (a falsy one: [undefined], [null], the empty
    string, 0) throws a [RangeError] before it reads the cache or logs
    anything. *)
Theorem lookup_without_key_throws (key : value) (st : state) :
  truthy key = false →
  getInstancesByAppId key st =
    (Throw (RangeError "Unable to query instances with no appId"), st) ∧
  getInstancesByVipAddress key st =
    (Throw (RangeError "Unable to query instances with no vipAddress"), st).
Proof.
  intros Hkey. unfold getInstancesByAppId, getInstancesByVipAddress.
  by rewrite Hkey.
Qed.

(** X9.  A lookup by VIP address reads the own keys of the mapping first.  A
    stored list that is not empty is returned without a log line; a stored
    empty list, or nothing at all under a name that [Object.prototype] does
    not have either, gives the empty list and one warning.  Under a name
    that only [Object.prototype] has, the lookup returns the inherited
    member, which is no list, and warns only if the [length] of that member
    is 0: under [constructor] it returns the function [Object] and is silent,
    under [toString] it warns.  Nothing but the log changes.  This holds as
    long as nothing was stored under [__proto__]. *)
Theorem lookup_of_unknown_vip (vipAddress : value) (st : state) :
  truthy vipAddress = true →
  cache_vip (cache st) !! "__proto__" = None →
  let key := to_string vipAddress in
  let warned := record (Log Warn "Unable to retrieves instances for vipAddress") st in
  (∀ i l, cache_vip (cache st) !! key = Some (i :: l) →
     getInstancesByVipAddress vipAddress st = (Ok (Instances (i :: l)), st)) ∧
  (cache_vip (cache st) !! key = Some [] →
     getInstancesByVipAddress vipAddress st = (Ok (Instances []), warned)) ∧
  (cache_vip (cache st) !! key = None → inherited key = None →
     getInstancesByVipAddress vipAddress st = (Ok (Instances []), warned)) ∧
  (cache_vip (cache st) !! key = None → inherited key = Some (Some 0) →
     getInstancesByVipAddress vipAddress st = (Ok (Inherited key), warned)) ∧
  (cache_vip (cache st) !! key = None →
     ∀ len, inherited key = Some len → len ≠ Some 0 →
     getInstancesByVipAddress vipAddress st = (Ok (Inherited key), st)) ∧
  (cache_vip (cache st) !! "constructor" = None →
     getInstancesByVipAddress (VStr "constructor") st =
       (Ok (Inherited "constructor"), st)) ∧
  (cache_vip (cache st) !! "toString" = None →
     getInstancesByVipAddress (VStr "toString") st = (Ok (Inherited "toString"), warned)).
Proof.
  intros Htruthy _ key warned. subst key.
  assert (Hmember : ∀ name,
    cache_vip (cache st) !! name = None →
    getInstancesByVipAddress (VStr name) st =
      (if negb (truthy (VStr name))
       then (Throw (RangeError "Unable to query instances with no vipAddress"), st)
       else match inherited name with
            | Some (Some 0) => (Ok (Inherited name), warned)
            | Some _ => (Ok (Inherited name), st)
            | None => (Ok (Instances []), warned)
            end)).
  { intros name Hnone. unfold getInstancesByVipAddress.
    destruct (negb (truthy (VStr name))); [reflexivity|].
    unfold gets, log, modify, mbind, ST_bind, mret, ST_ret, read_member. cbv beta iota.
    cbn [to_string]. rewrite Hnone.
    destruct (inherited name) as [[[| |]|]|] eqn:Hlen; cbn [default id length_is_zero];
      rewrite ?Hlen; reflexivity. }
  split; [|split; [|split; [|split; [|split; [|split]]]]];
    [| | | | |intros Hnone; by rewrite (Hmember _ Hnone)..];
    unfold getInstancesByVipAddress; rewrite Htruthy; cbn [negb];
    unfold gets, log, modify, mbind, ST_bind, mret, ST_ret, read_member; cbv beta iota.
  - by intros i l ->.
  - by intros ->.
  - by intros -> ->.
  - intros -> Hlen. rewrite Hlen. cbn [default id length_is_zero]. by rewrite Hlen.
  - intros -> len Hlen Hne. rewrite Hlen. cbn [default id length_is_zero].
    rewrite Hlen. by destruct len as [[| |]|].
Qed.

End Lookups.

Lemma stored_entry_is_found_witness :
  let i := instance_of "svc.vip" "UP" in
  let st := set_cache
              (snd (transformApp (P := sample_platform) static_config
                      (application_of "svc" (VArr [i])) sample_cache))
              sample_client in
  fst (getInstancesByAppId (P := sample_platform) (VStr "Svc") st) = Ok [i] ∧
  fst (getInstancesByVipAddress (VStr "svc.vip") st) = Ok (Instances [i]).
Proof.
  intros i st.
  destruct (stored_entry_is_found (P := sample_platform) static_config
              (application_of "svc" (VArr [i])) "SVC" "svc.vip" [i] sample_cache st)
    as [Happ Hvip].
  - apply (multi_instance (P := sample_platform) static_config _ "svc" i [] [i]
             (VStr "svc.vip")); reflexivity.
  - reflexivity.
  - split; [by apply Happ | by apply Hvip].
Defined.

Lemma lookup_without_key_throws_witness :
  getInstancesByAppId (P := sample_platform) (VStr EmptyString) sample_client =
    (Throw (RangeError "Unable to query instances with no appId"), sample_client) ∧
  getInstancesByVipAddress VNull sample_client =
    (Throw (RangeError "Unable to query instances with no vipAddress"), sample_client).
Proof.
  split.
  - apply (lookup_without_key_throws (P := sample_platform) (VStr EmptyString)
             sample_client). reflexivity.
  - apply (lookup_without_key_throws (P := sample_platform) VNull sample_client).
    reflexivity.
Defined.

Lemma lookup_of_unknown_vip_witness :
  let warned :=
    record (Log Warn "Unable to retrieves instances for vipAddress") sample_client in
  getInstancesByVipAddress (VStr "nobody") sample_client = (Ok (Instances []), warned) ∧
  getInstancesByVipAddress (VStr "constructor") sample_client =
    (Ok (Inherited "constructor"), sample_client) ∧
  getInstancesByVipAddress (VStr "toString") sample_client =
    (Ok (Inherited "toString"), warned).
Proof.
  intros warned.
  destruct (lookup_of_unknown_vip (VStr "nobody") sample_client eq_refl eq_refl)
    as (_ & _ & Hnone & _ & _ & Hconstructor & HtoString).
  split; [apply Hnone; reflexivity|].
  split; [apply Hconstructor; reflexivity | apply HtoString; reflexivity].
Defined.

(** Why [getInstancesByAppId] gets by with the own keys: every name that
    [Object.prototype] has holds a lower-case letter, and an upper-cased key
    holds none. *)
Definition is_lower (c : ascii) : bool :=
  (Nat.leb 97 (nat_of_ascii c) && Nat.leb (nat_of_ascii c) 122)%bool.

Fixpoint has_lower (s : string) : bool :=
  match s with
  | EmptyString => false
  | String c rest => (is_lower c || has_lower rest)%bool
  end.

Lemma upper_case_has_no_lower (s : string) : has_lower (string_toUpperCase s) = false.
Proof.
  induction s as [|c s IH]; [reflexivity|].
  cbn [string_toUpperCase has_lower]. rewrite IH, orb_false_r.
  by destruct c as [[] [] [] [] [] [] [] []].
Qed.

Lemma inherited_has_lower (key : string) (len : option Z) :
  inherited key = Some len → has_lower key = true.
Proof.
  unfold inherited, Object_prototype. cbn [find fst].
  repeat match goal with
         | |- context [String.eqb ?name key] =>
             destruct (String.eqb_spec name key) as [<-|_]; [intros _; reflexivity|]
         end.
  discriminate.
Qed.

Lemma upper_cased_key_not_inherited (appId : string) :
  inherited (string_toUpperCase appId) = None.
Proof.
  destruct (inherited (string_toUpperCase appId)) as [len|] eqn:H; [|reflexivity].
  apply inherited_has_lower in H. by rewrite upper_case_has_no_lower in H.
Qed.

(** A truthy application id that is not a string has no [toUpperCase]. *)
Example lookup_by_number_throws :
  fst (getInstancesByAppId (P := sample_platform) (VNum 7) sample_client) =
  Throw (TypeError "toUpperCase is not a function").
Proof. reflexivity. Qed.

(** ** Payloads that are malformed or empty *)

Section FetchEdges.
Context {P : Platform} (cfg : Config).

(** X10.  One application entry on which [transformApp] throws discards the whole
    payload: the exception leaves the fetch callback uncaught, the cache is
    the old one, [registryUpdated] is not emitted and the callback of the
    fetch is never called. *)
Theorem malformed_entry_discards_payload (st : state) (id : nat) (req : request)
    (cb : callback) (body : string) (registry applications application : value)
    (e : error) :
  pending st !! id = Some (HttpCall req (ForFetchRegistry cb)) →
  JSON_parse body = Some registry →
  truthy registry = true →
  get_prop registry "applications" = Ok applications →
  get_prop applications "application" = Ok application →
  truthy application = true →
  build_cache cfg application = Throw e →
  let st' := step cfg (HttpReplied id (HttpResponse 200 body)) st in
  cache st' = cache st ∧
  trace st' = Uncaught e :: Log Debug "retrieved registry successfully" :: trace st ∧
  serviceUrl st' = serviceUrl st ∧
  timers st' = timers st.
Proof.
  intros Hpending Hparse Htruthy Happs Happ Htruthy' Hbuild st'. subst st'.
  rewrite (fetchRegistry_answered cfg _ _ _ _ _ Hpending).
  rewrite (fetchRegistry_parsed cfg _ _ _ _ Hparse).
  unfold transformRegistry, lift, mbind, ST_bind.
  by rewrite Htruthy, Happs, Happ, Htruthy', Hbuild.
Qed.

(** An entry throws, for one, when it has instances but no name. *)
Lemma nameless_entry_throws (app : value) (first : value) (rest kept : list value)
    (c : Cache) :
  get_prop app "instance" = Ok (VArr (first :: rest)) →
  filter_res (validateInstance cfg) (first :: rest) = Ok kept →
  get_prop app "name" = Ok VUndef →
  transformApp cfg app c = (Throw (TypeError "Cannot read property 'toUpperCase'"), c).
Proof.
  intros Hinst Hkept Hname. unfold transformApp, mbind, ST_bind, lift.
  rewrite Hinst. cbn [get_prop String.eqb Ascii.eqb Bool.eqb].
  replace (truthy (VNum (Z.of_nat (length (first :: rest))))) with true
    by (cbn [length truthy]; destruct (Z.eqb_spec (Z.of_nat (S (length rest))) 0);
        [lia | reflexivity]).
  cbn [array_filter]. by rewrite Hkept, Hname.
Qed.

(** X11.  An application list that is an empty array is not an empty registry: the
    cache is replaced by an empty one.  Every lookup by application id then
    finds nothing, and so does a lookup by VIP address, but for the names
    that [Object.prototype] has: under those it returns the inherited
    member, the function [Object] under [constructor]. *)
Theorem empty_application_list_clears_cache (st : state) (id : nat) (req : request)
    (cb : callback) (body : string) (registry applications : value) :
  pending st !! id = Some (HttpCall req (ForFetchRegistry cb)) →
  JSON_parse body = Some registry →
  get_prop registry "applications" = Ok applications →
  get_prop applications "application" = Ok (VArr []) →
  let st' := step cfg (HttpReplied id (HttpResponse 200 body)) st in
  cache st' = empty_cache ∧
  trace st' = (invoke_effects cb None ++
               Emit "registryUpdated" ::
               Log Debug "retrieved registry successfully" :: trace st)%list ∧
  (∀ appId, appId ≠ EmptyString → fst (getInstancesByAppId (VStr appId) st') = Ok []) ∧
  (∀ vipAddress, truthy vipAddress = true → inherited (to_string vipAddress) = None →
     fst (getInstancesByVipAddress vipAddress st') = Ok (Instances [])) ∧
  (∀ vipAddress len, truthy vipAddress = true →
     inherited (to_string vipAddress) = Some len →
     fst (getInstancesByVipAddress vipAddress st') =
       Ok (Inherited (to_string vipAddress))) ∧
  fst (getInstancesByVipAddress (VStr "constructor") st') = Ok (Inherited "constructor").
Proof.
  intros Hpending Hparse Happs Happ st'.
  assert (Htruthy : truthy registry = true).
  { destruct registry; try done; cbn in Happs; injection Happs as <-; done. }
  assert (Hcache : cache st' = empty_cache ∧
    trace st' = (invoke_effects cb None ++ Emit "registryUpdated" ::
                 Log Debug "retrieved registry successfully" :: trace st)%list).
  { subst st'. rewrite (fetchRegistry_answered cfg _ _ _ _ _ Hpending).
    rewrite (fetchRegistry_parsed cfg _ _ _ _ Hparse).
    rewrite (transformRegistry_installs cfg registry applications (VArr []) empty_cache)
      by done.
    rewrite recorded_cache, recorded_trace, <- app_assoc. done. }
  destruct Hcache as [Hcache Htrace].
  split; [done|]. split; [done|]. split; [|split; [|split]].
  - intros appId Hne. rewrite getInstancesByAppId_found, Hcache by done.
    cbn [empty_cache cache_app]. by rewrite lookup_empty.
  - intros vip Hvip Hown. rewrite getInstancesByVipAddress_found, Hcache by done.
    cbn [empty_cache cache_vip]. unfold read_member. by rewrite lookup_empty, Hown.
  - intros vip len Hvip Hproto. rewrite getInstancesByVipAddress_found, Hcache by done.
    cbn [empty_cache cache_vip]. unfold read_member. by rewrite lookup_empty, Hproto.
  - rewrite getInstancesByVipAddress_found, Hcache by done.
    cbn [empty_cache cache_vip]. unfold read_member. by rewrite lookup_empty.
Qed.

End FetchEdges.

(** More response bodies, by name. *)
Definition edge_bodies : list (string * value) :=
  [ ("nameless-entry",
     registry_of (VArr [application_of "svc" (VArr [instance_of "v1" "UP"]);
                        VObj [("instance", VArr [instance_of "v2" "UP"])]]));
    ("no-entries", registry_of (VArr [])) ].

Definition edge_platform : Platform :=
  {| toUpperCase := string_toUpperCase;
     JSON_parse := λ body, snd <$> find (λ p, String.eqb (fst p) body) edge_bodies;
     url_parse := url_parse (Platform := sample_platform);
     url_format := url_format (Platform := sample_platform) |}.

(** [fetchRegistry(cb2)] was called: the GET is call 0. *)
Definition fetching_edge : state :=
  run (fetchRegistry (P := edge_platform) static_config (UserCallback 2)) sample_client.

Lemma malformed_entry_discards_payload_witness :
  let st' := step (P := edge_platform) static_config
               (HttpReplied 0 (HttpResponse 200 "nameless-entry")) fetching_edge in
  cache st' = sample_cache ∧
  trace st' = [Uncaught (TypeError "Cannot read property 'toUpperCase'");
               Log Debug "retrieved registry successfully"].
Proof.
  intros st'.
  destruct (malformed_entry_discards_payload (P := edge_platform) static_config
              fetching_edge 0
              {| method := GET; url := "http://a/";
                 headers := Some {["Accept" := "application/json"]} |}
              (UserCallback 2) "nameless-entry"
              (registry_of (VArr [application_of "svc" (VArr [instance_of "v1" "UP"]);
                                  VObj [("instance", VArr [instance_of "v2" "UP"])]]))
              (VObj [("application",
                      VArr [application_of "svc" (VArr [instance_of "v1" "UP"]);
                            VObj [("instance", VArr [instance_of "v2" "UP"])]])])
              (VArr [application_of "svc" (VArr [instance_of "v1" "UP"]);
                     VObj [("instance", VArr [instance_of "v2" "UP"])]])
              (TypeError "Cannot read property 'toUpperCase'"))
    as (Hcache & Htrace & _); try reflexivity.
  fold st' in Hcache, Htrace. rewrite Hcache, Htrace. split; reflexivity.
Defined.

Lemma empty_application_list_clears_cache_witness :
  let st' := step (P := edge_platform) static_config
               (HttpReplied 0 (HttpResponse 200 "no-entries")) fetching_edge in
  cache_app (cache fetching_edge) !! "OLD" = Some [instance_of "old" "UP"] ∧
  cache st' = empty_cache ∧
  fst (getInstancesByAppId (P := edge_platform) (VStr "old") st') = Ok [] ∧
  fst (getInstancesByVipAddress (VStr "old") st') = Ok (Instances []) ∧
  fst (getInstancesByVipAddress (VStr "constructor") st') = Ok (Inherited "constructor").
Proof.
  intros st'.
  destruct (empty_application_list_clears_cache (P := edge_platform) static_config
              fetching_edge 0
              {| method := GET; url := "http://a/";
                 headers := Some {["Accept" := "application/json"]} |}
              (UserCallback 2) "no-entries" (registry_of (VArr []))
              (VObj [("application", VArr [])]))
    as (Hcache & _ & Happ & Hvip & _ & Hconstructor); try reflexivity.
  split; [vm_compute; reflexivity|]. split; [exact Hcache|].
  split; [by apply Happ|].
  split; [by apply Hvip | exact Hconstructor].
Defined.

(** ** What an event can change *)

Section Moves.
Context {P : Platform} (cfg : Config).
Context {B : Type} (f : state → B) (R : B → B → Prop).
Hypothesis R_refl : ∀ b, R b b.
Hypothesis R_trans : ∀ a b c, R a b → R b c → R a c.
Hypothesis f_record : ∀ e s, f (record e s) = f s.
Hypothesis f_pending : ∀ ps n s, f (set_pending ps n s) = f s.
Hypothesis f_timers : ∀ ts n s, f (set_timers ts n s) = f s.
Hypothesis f_random : ∀ n s, f (set_random_draws n s) = f s.
Hypothesis f_status : ∀ x s, f (set_instance_status x s) = f s.
Hypothesis f_token : ∀ t s, f (set_oauth_token t s) = f s.
Hypothesis f_heartbeat : ∀ h s, f (set_heartbeat h s) = f s.
Hypothesis f_reregister : ∀ h s, f (set_reregisterTimeout h s) = f s.
Hypothesis f_registryFetch : ∀ h s, f (set_registryFetch h s) = f s.
Hypothesis f_cache : ∀ c s, R (f s) (f (set_cache c s)).
Hypothesis f_rotate : ∀ s, R (f s) (f (set_serviceUrl (rotate (serviceUrl s)) s)).

(** Whatever the state, [m] moves the observed field [f] along [R]. *)
Definition moves {A} (m : ST state A) : Prop := ∀ st, R (f st) (f (snd (m st))).

Lemma moves_bind {A C} (m : ST state A) (k : A → ST state C) :
  moves m → (∀ a, moves (k a)) → moves (m ≫= k).
Proof.
  intros Hm Hk st. unfold mbind, ST_bind. specialize (Hm st).
  destruct (m st) as [[a|e] s]; cbn [snd] in *; [|exact Hm].
  eapply R_trans; [exact Hm | apply Hk].
Qed.

Lemma moves_mret {A} (a : A) : moves (mret a).
Proof. intros st. apply R_refl. Qed.
Lemma moves_throw {A} e : moves (throw (A := A) e).
Proof. intros st. apply R_refl. Qed.
Lemma moves_lift {A} (r : res A) : moves (lift r).
Proof. intros st. apply R_refl. Qed.
Lemma moves_gets {A} (g : state → A) : moves (gets g).
Proof. intros st. apply R_refl. Qed.
Lemma moves_log l msg : moves (log l msg).
Proof. intros st. cbn. rewrite f_record. apply R_refl. Qed.
Lemma moves_emit s : moves (emit s).
Proof. intros st. cbn. rewrite f_record. apply R_refl. Qed.
Lemma moves_invoke cb err : moves (invoke cb err).
Proof.
  intros st. destruct cb as [| |]; [| |destruct err]; cbn; rewrite ?f_record; apply R_refl.
Qed.
Lemma moves_set_timer t : moves (set_timer t).
Proof. intros st. cbn. rewrite f_timers. apply R_refl. Qed.
Lemma moves_clear_timer h : moves (clear_timer h).
Proof. intros st. destruct h; cbn; rewrite ?f_timers; apply R_refl. Qed.
Lemma moves_call_async p : moves (call_async p).
Proof. intros st. cbn. rewrite f_pending. apply R_refl. Qed.
Lemma moves_random : moves Math_random.
Proof. intros st. cbn. rewrite f_random. apply R_refl. Qed.
Lemma moves_set_status x : moves (modify (set_instance_status x)).
Proof. intros st. cbn. rewrite f_status. apply R_refl. Qed.
Lemma moves_set_token t : moves (modify (set_oauth_token t)).
Proof. intros st. cbn. rewrite f_token. apply R_refl. Qed.
Lemma moves_set_heartbeat h : moves (modify (set_heartbeat h)).
Proof. intros st. cbn. rewrite f_heartbeat. apply R_refl. Qed.
Lemma moves_set_reregister h : moves (modify (set_reregisterTimeout h)).
Proof. intros st. cbn. rewrite f_reregister. apply R_refl. Qed.
Lemma moves_set_registryFetch h : moves (modify (set_registryFetch h)).
Proof. intros st. cbn. rewrite f_registryFetch. apply R_refl. Qed.
Lemma moves_set_cache c : moves (modify (set_cache c)).
Proof. intros st. apply f_cache. Qed.
Lemma moves_rotate : moves rotateCurrentServiceUrl.
Proof. intros st. apply f_rotate. Qed.

Ltac moves_step :=
  first
    [ apply moves_bind; [|intros ?]
    | apply moves_mret | apply moves_throw | apply moves_lift | apply moves_gets
    | apply moves_log | apply moves_emit | apply moves_invoke
    | apply moves_set_timer | apply moves_clear_timer | apply moves_call_async
    | apply moves_random | apply moves_set_status | apply moves_set_token
    | apply moves_set_heartbeat | apply moves_set_reregister
    | apply moves_set_registryFetch | apply moves_set_cache | apply moves_rotate
    | progress cbv zeta
    | progress case_match ].

Lemma moves_host_resolved k err eurekaUrl token :
  moves (host_resolved cfg k err eurekaUrl token).
Proof. unfold host_resolved. repeat moves_step. Qed.

Lemma moves_dns_located k err resolvedHost : moves (dns_located cfg k err resolvedHost).
Proof.
  unfold dns_located, parse_current, currentServiceUrl, getTokenForClientCredentials.
  repeat first [apply moves_host_resolved | moves_step].
Qed.

Lemma moves_lookupCurrentEurekaHost k : moves (lookupCurrentEurekaHost cfg k).
Proof.
  unfold lookupCurrentEurekaHost, locateEurekaHostUsingDns, parse_current,
    currentServiceUrl, getTokenForClientCredentials.
  repeat first [apply moves_host_resolved | apply moves_dns_located | moves_step].
Qed.

Lemma moves_register cb : moves (register cfg cb).
Proof.
  unfold register, setTimeout.
  repeat first [apply moves_lookupCurrentEurekaHost | moves_step].
Qed.

Lemma moves_timer_fired a : moves (timer_fired cfg a).
Proof.
  unfold timer_fired, renew, fetchRegistry.
  repeat first [apply moves_register | apply moves_lookupCurrentEurekaHost | moves_step].
Qed.

Lemma moves_stop cb : moves (stop cfg cb).
Proof.
  unfold stop, stopHeartbeats, deregister.
  repeat first [apply moves_lookupCurrentEurekaHost | moves_step].
Qed.

Lemma moves_dns_replies k r :
  moves (region_resolved cfg k r) ∧ moves (host_lookup_resolved cfg k r).
Proof.
  split; unfold region_resolved, host_lookup_resolved;
    repeat first [apply moves_dns_located | moves_step].
Qed.

Lemma moves_token_reply resume k r :
  moves ('(error, token) ← token_received r; token_resolved cfg resume k error token).
Proof.
  unfold token_received, token_resolved, currentServiceUrl.
  repeat first [apply moves_host_resolved | moves_step].
Qed.

Lemma moves_transformRegistry registry : moves (transformRegistry cfg registry).
Proof. unfold transformRegistry. repeat moves_step. Qed.

Lemma moves_register_response cb connectionTimeout r :
  moves (register_response cfg cb connectionTimeout r).
Proof.
  unfold register_response, startHeartbeats, setInterval, setTimeout.
  repeat moves_step.
Qed.

Lemma moves_deregister_response cb r : moves (deregister_response cb r).
Proof. unfold deregister_response. repeat moves_step. Qed.

Lemma moves_renew_response r : moves (renew_response cfg r).
Proof.
  unfold renew_response, stopHeartbeats.
  repeat first [apply moves_register | moves_step].
Qed.

Lemma moves_fetchRegistry_response cb r : moves (fetchRegistry_response cfg cb r).
Proof.
  unfold fetchRegistry_response.
  repeat first [apply moves_transformRegistry | moves_step].
Qed.

Lemma moves_http_response k r : moves (http_response cfg k r).
Proof.
  destruct k; cbn [http_response].
  - apply moves_register_response.
  - apply moves_deregister_response.
  - apply moves_renew_response.
  - apply moves_fetchRegistry_response.
Qed.

Lemma moves_run (m : ST state unit) st : moves m → R (f st) (f (run m st)).
Proof.
  intros Hm. unfold run. specialize (Hm st).
  destruct (m st) as [[a|e] s]; cbn [snd] in Hm; [exact Hm|].
  by rewrite f_record.
Qed.

(** One turn of the event loop moves the field along [R]. *)
Lemma moves_step_event ev st : R (f st) (f (step cfg ev st)).
Proof.
  destruct ev as [id|id r|id r|id r]; unfold step.
  - destruct (timers st !! id) as [t|]; [|apply R_refl].
    eapply R_trans; [|apply moves_run, moves_timer_fired].
    unfold expired. destruct (t_repeat t); rewrite ?f_timers; apply R_refl.
  - destruct (pending st !! id) as [[req k| |]|]; try apply R_refl.
    eapply R_trans; [|apply moves_run, moves_http_response].
    unfold answered. rewrite f_pending. apply R_refl.
  - destruct (pending st !! id) as [[|name [] k|]|]; try apply R_refl;
      (eapply R_trans; [|apply moves_run, moves_dns_replies]);
      unfold answered; rewrite f_pending; apply R_refl.
  - destruct (pending st !! id) as [[| |resume k]|]; try apply R_refl.
    eapply R_trans; [|apply moves_run, moves_token_reply].
    unfold answered. rewrite f_pending. apply R_refl.
Qed.

End Moves.

Section Invariants.
Context {P : Platform} (cfg : Config).

(** The events of a run, handled in order. *)
Definition run_events (evs : list event) (st : state) : state :=
  foldl (λ s ev, step cfg ev s) st evs.

Definition rotated (a b : ring) : Prop := ∃ n, b = Nat.iter n rotate a.

Lemma step_rotates ev st : rotated (serviceUrl st) (serviceUrl (step cfg ev st)).
Proof.
  apply (moves_step_event cfg serviceUrl rotated); try done.
  - intros b. by exists 0%nat.
  - intros a b c [n ->] [m ->]. exists (m + n)%nat. by rewrite Nat.iter_add.
  - intros c s. by exists 0%nat.
  - intros s. by exists 1%nat.
Qed.

Lemma iter_rotate_perm (n : nat) (r : ring) :
  validate_serviceUrl r = true →
  Nat.iter n rotate r ≡ₚ r ∧ validate_serviceUrl (Nat.iter n rotate r) = true.
Proof.
  intros Hv. induction n as [|n [IHp IHv]]; [done|]. rewrite Nat.iter_succ.
  split; [by rewrite rotate_perm | by apply rotate_validated].
Qed.

(** X12.  Whatever events arrive and in whatever order, the endpoint ring of a
    validated client is its initial ring rotated some number of times: no
    URL is ever dropped, added or duplicated, and the ring never becomes
    empty. *)
Theorem ring_is_only_ever_rotated (evs : list event) (st : state) :
  validate_serviceUrl (serviceUrl st) = true →
  let st' := run_events evs st in
  (∃ n, serviceUrl st' = Nat.iter n rotate (serviceUrl st)) ∧
  serviceUrl st' ≡ₚ serviceUrl st ∧
  validate_serviceUrl (serviceUrl st') = true.
Proof.
  intros Hv st'.
  assert (Hrot : rotated (serviceUrl st) (serviceUrl st')).
  { subst st'. clear Hv. revert st. induction evs as [|ev evs IH]; intros st.
    - by exists 0%nat.
    - cbn [run_events foldl]. destruct (step_rotates ev st) as [n Hn].
      destruct (IH (step cfg ev st)) as [m Hm]. exists (m + n)%nat.
      unfold run_events in Hm. by rewrite Hm, Hn, Nat.iter_add. }
  destruct Hrot as [n Hn]. split; [by exists n|].
  rewrite Hn. by apply iter_rotate_perm.
Qed.

Lemma keeps_run {B} (f : state → B) (m : ST state unit) (st : state) :
  (∀ e s, f (record e s) = f s) → moves f eq m → f (run m st) = f st.
Proof. intros Hrec Hm. symmetry. by apply (moves_run f eq Hrec). Qed.

(** X13.  The cache changes in one place only: the answer with status 200 to a
    registry fetch.  Timers, DNS and token answers, registration, heartbeat
    and deregistration answers and failed fetches all leave it as it is. *)
Theorem cache_changes_only_on_fetch (ev : event) (st : state) :
  cache (step cfg ev st) = cache st ∨
  ∃ id body req cb,
    ev = HttpReplied id (HttpResponse 200 body) ∧
    pending st !! id = Some (HttpCall req (ForFetchRegistry cb)).
Proof.
  destruct ev as [id|id r|id r|id r]; unfold step.
  - left. destruct (timers st !! id) as [t|]; [|done].
    transitivity (cache (expired id t st)); [|by unfold expired; destruct (t_repeat t)].
    apply keeps_run; [done|].
    apply (moves_timer_fired cfg cache eq); try done; intros; congruence.
  - destruct (pending st !! id) as [[req k| |]|] eqn:Hpending; try by left.
    destruct k as [cb ct|cb| |cb].
    + left. apply (keeps_run cache (http_response cfg _ r) (answered id st)); [done|].
      apply (moves_register_response cfg cache eq); try done; intros; congruence.
    + left. apply (keeps_run cache (http_response cfg _ r) (answered id st)); [done|].
      apply (moves_deregister_response cache eq); try done; intros; congruence.
    + left. apply (keeps_run cache (http_response cfg _ r) (answered id st)); [done|].
      apply (moves_renew_response cfg cache eq); try done; intros; congruence.
    + destruct (status_is r 200) eqn:H200.
      * right. apply status_is_inv in H200 as [body ->]. by exists id, body, req, cb.
      * left. cbn [http_response]. rewrite (fetchRegistry_failed cfg _ _ _ H200).
        by rewrite recorded_cache.
  - left. destruct (pending st !! id) as [[|name [] k|]|]; try done.
    + apply (keeps_run cache (region_resolved cfg k r) (answered id st)); [done|].
      apply (moves_dns_replies cfg cache eq); try done; intros; congruence.
    + apply (keeps_run cache (host_lookup_resolved cfg k r) (answered id st)); [done|].
      apply (moves_dns_replies cfg cache eq); try done; intros; congruence.
  - left. destruct (pending st !! id) as [[| |resume k]|]; try done.
    apply (keeps_run cache _ (answered id st)); [done|].
    apply (moves_token_reply cfg cache eq); try done; intros; congruence.
Qed.

End Invariants.

Lemma ring_is_only_ever_rotated_witness :
  let st' := run_events (P := sample_platform) static_config
               [HttpReplied 0 (HttpError (Error "ECONNREFUSED")); TimerFired 1;
                HttpReplied 1 (HttpResponse 204 "no content"); TimerFired 3;
                HttpReplied 2 (HttpResponse 500 "busy")]
               registering in
  serviceUrl st' = [Some "http://c/"; Some "http://a/"; Some "http://b/"] ∧
  serviceUrl st' ≡ₚ sample_ring ∧
  validate_serviceUrl (serviceUrl st') = true.
Proof.
  intros st'.
  destruct (ring_is_only_ever_rotated (P := sample_platform) static_config
              [HttpReplied 0 (HttpError (Error "ECONNREFUSED")); TimerFired 1;
               HttpReplied 1 (HttpResponse 204 "no content"); TimerFired 3;
               HttpReplied 2 (HttpResponse 500 "busy")]
              registering) as (_ & Hperm & Hv); [reflexivity|].
  split; [vm_compute; reflexivity|]. split; [exact Hperm | exact Hv].
Defined.

(** ** Registration accepted, deregistration, stop *)

Section LifecycleMore.
Context {P : Platform} (cfg : Config).

Hint Rewrite recorded_trace recorded_serviceUrl recorded_cache recorded_timers
  recorded_next_timer recorded_pending recorded_next_call recorded_heartbeat
  recorded_reregisterTimeout recorded_instance_status : client.

(** The heartbeat interval that an accepted registration starts. *)
Definition heartbeat_timer : timer :=
  {| t_repeat := true; t_delay := heartbeatInterval cfg; t_action := HeartbeatTick |}.

(** X14.  When the registration is answered with status 204, the client emits
    [registered], starts the heartbeat interval with the configured period,
    remembers its handle and then calls the callback without an error; the
    watchdog timer is cleared and the ring is not touched. *)
Theorem register_accepted_starts_heartbeats (st : state) (id : nat) (req : request)
    (cb : callback) (connectionTimeout : nat) (body : string) :
  pending st !! id = Some (HttpCall req (ForRegister cb connectionTimeout)) →
  let st' := step cfg (HttpReplied id (HttpResponse 204 body)) st in
  trace st' = (invoke_effects cb None ++
               Emit "registered" :: Log Info "registered with eureka: " :: trace st)%list ∧
  timers st' = <[next_timer st := heartbeat_timer]> (delete connectionTimeout (timers st)) ∧
  heartbeat st' = Some (next_timer st) ∧
  serviceUrl st' = serviceUrl st ∧
  reregisterTimeout st' = reregisterTimeout st ∧
  pending st' = delete id (pending st).
Proof.
  intros Hpending st'. subst st'. unfold step. rewrite Hpending.
  client_unfold. rewrite clear_timer_spec. cbn [status_is Z.eqb Pos.eqb].
  client_simpl. rewrite invoke_spec. autorewrite with client. client_simpl. done.
Qed.

(** X15.  The answer to a deregistration is passed on and nothing else happens:
    status 200 emits [deregistered] and calls the callback without an error,
    a transport error or another status calls it with the error; the ring is
    not rotated, no timer is set or cleared and no call is started. *)
Theorem deregister_outcomes (st : state) (id : nat) (req : request) (cb : callback)
    (r : http_reply) :
  pending st !! id = Some (HttpCall req (ForDeregister cb)) →
  let st' := step cfg (HttpReplied id r) st in
  let outcome :=
    if status_is r 200 then None
    else Some match r with
              | HttpError e => e
              | HttpResponse statusCode body =>
                  Error ("eureka deregistration FAILED: status: " ++ pretty statusCode ++
                         " body: " ++ body)
              end in
  let logs :=
    if status_is r 200 then [Emit "deregistered"; Log Info "de-registered with eureka: "]
    else match r with
         | HttpError _ => [Log Warn "Error deregistering with eureka"]
         | HttpResponse _ _ => []
         end in
  trace st' = (invoke_effects cb outcome ++ logs ++ trace st)%list ∧
  serviceUrl st' = serviceUrl st ∧
  timers st' = timers st ∧
  next_timer st' = next_timer st ∧
  heartbeat st' = heartbeat st ∧
  pending st' = delete id (pending st) ∧
  next_call st' = next_call st.
Proof.
  intros Hpending st' outcome logs. subst st' outcome logs.
  unfold step. rewrite Hpending. cbn [http_response]. unfold deregister_response.
  destruct (status_is r 200); [|destruct r];
    unfold log, emit, modify, run, mbind, ST_bind; cbv beta iota;
    rewrite invoke_spec; autorewrite with client; client_simpl; done.
Qed.

(** The state in which [stop] starts the deregistration: the registry poll,
    the pending retry and the heartbeat are cleared, in that order. *)
Definition stopped (st : state) : state :=
  set_timers
    (cleared (heartbeat st)
       (cleared (reregisterTimeout st) (cleared (registryFetch st) (timers st))))
    (next_timer st) st.

Lemma stop_deregisters cb st :
  run (stop cfg cb) st = run (deregister cfg cb) (stopped st).
Proof.
  unfold stop, stopHeartbeats, gets, run, mbind, ST_bind. cbv beta iota.
  rewrite !clear_timer_spec. reflexivity.
Qed.

(** X16.  [stop] cancels the registry poll, a pending registration retry and the
    heartbeat before it deregisters: afterwards none of the three handles
    names an active timer, so none of them fires again; the ring and the
    cache stay as they are. *)
Theorem stop_cancels_timers (cb : callback) (st : state) :
  let st' := run (stop cfg cb) st in
  timers st' =
    cleared (heartbeat st)
      (cleared (reregisterTimeout st) (cleared (registryFetch st) (timers st))) ∧
  (∀ h, heartbeat st = Some h ∨ reregisterTimeout st = Some h ∨ registryFetch st = Some h →
        timers st' !! h = None ∧ step cfg (TimerFired h) st' = st') ∧
  serviceUrl st' = serviceUrl st ∧
  cache st' = cache st.
Proof.
  intros st'. subst st'. rewrite stop_deregisters.
  assert (Htimers : timers (run (deregister cfg cb) (stopped st)) = timers (stopped st)).
  { apply keeps_run; [done|]. unfold deregister.
    apply (moves_lookupCurrentEurekaHost cfg timers eq); try done; intros; congruence. }
  split; [by rewrite Htimers|]. split; [|split].
  - intros h Hh.
    assert (Hnone : timers (run (deregister cfg cb) (stopped st)) !! h = None).
    { rewrite Htimers. unfold stopped. client_simpl.
      destruct Hh as [-> | [-> | ->]]; cbn [cleared].
      - apply lookup_delete_eq.
      - destruct (heartbeat st) as [h'|]; cbn [cleared];
          rewrite ?lookup_delete; repeat case_decide; try done; apply lookup_delete_eq.
      - destruct (heartbeat st) as [h'|], (reregisterTimeout st) as [h''|]; cbn [cleared];
          rewrite ?lookup_delete; repeat case_decide; try done; apply lookup_delete_eq. }
    split; [exact Hnone|]. unfold step. by rewrite Hnone.
  - transitivity (serviceUrl (stopped st)); [|done].
    apply keeps_run; [done|]. unfold deregister.
    apply (moves_lookupCurrentEurekaHost cfg serviceUrl eq); try done; intros; congruence.
  - transitivity (cache (stopped st)); [|done].
    apply keeps_run; [done|]. unfold deregister.
    apply (moves_lookupCurrentEurekaHost cfg cache eq); try done; intros; congruence.
Qed.

End LifecycleMore.

(** ** Timers that fire *)

Section Ticks.
Context {P : Platform} (cfg : Config).

(** The heartbeat request to the current endpoint, without a token. *)
Definition heartbeat_request (st : state) : request :=
  {| method := PUT;
     url := js_str (ring_current (serviceUrl st)) ++ instance_app cfg ++ "/" ++
            instanceId cfg;
     headers := None |}.

(** X17.  With static service URLs and no token provider, a tick of the heartbeat
    interval sends one PUT for [app/instanceId] to the current endpoint; the
    interval stays active and nothing else changes. *)
Theorem heartbeat_tick_sends_renewal (st : state) (t : nat) (tm : timer) :
  useDns cfg = false → oAuth2Enabled cfg = false →
  timers st !! t = Some tm → t_repeat tm = true → t_action tm = HeartbeatTick →
  let st' := step cfg (TimerFired t) st in
  pending st' = <[next_call st := HttpCall (heartbeat_request st) ForRenew]> (pending st) ∧
  timers st' = timers st ∧
  serviceUrl st' = serviceUrl st ∧
  trace st' = trace st.
Proof.
  intros Hdns Hoauth Htimer Hrepeat Haction st'. subst st'.
  unfold step, expired. rewrite Htimer, Hrepeat, Haction. cbn [timer_fired].
  client_unfold. rewrite Hdns, Hoauth. client_simpl. done.
Qed.

(** X18.  The watchdog of a registration only logs: when it has fired, the request
    is still in flight, and a later answer with status 204 registers the
    client as if the watchdog had not fired. *)
Theorem watchdog_does_not_cancel (st : state) (id : nat) (req : request)
    (cb : callback) (connectionTimeout : nat) (body : string) :
  pending st !! id = Some (HttpCall req (ForRegister cb connectionTimeout)) →
  timers st !! connectionTimeout = Some watchdog →
  let warned := step cfg (TimerFired connectionTimeout) st in
  let st' := step cfg (HttpReplied id (HttpResponse 204 body)) warned in
  trace warned =
    Log Warn "It looks like it's taking a while to register with Eureka." :: trace st ∧
  pending warned = pending st ∧
  serviceUrl warned = serviceUrl st ∧
  heartbeat st' = Some (next_timer st) ∧
  invocations (trace st') = (invocations (invoke_effects cb None) ++ invocations (trace st))%list ∧
  pending st' = delete id (pending st).
Proof.
  intros Hpending Htimer warned st'.
  assert (Hwarned : warned =
    record (Log Warn "It looks like it's taking a while to register with Eureka.")
      (set_timers (delete connectionTimeout (timers st)) (next_timer st) st)).
  { subst warned. unfold step. rewrite Htimer. reflexivity. }
  subst st'. rewrite Hwarned. split; [done|]. split; [done|]. split; [done|].
  unfold step. client_simpl. rewrite Hpending.
  client_unfold. rewrite clear_timer_spec. cbn [status_is Z.eqb Pos.eqb].
  client_simpl. rewrite invoke_spec.
  rewrite recorded_heartbeat, recorded_trace, recorded_pending. client_simpl.
  unfold invocations. rewrite omap_app. done.
Qed.

(** X19.  [startHeartbeats] never clears the interval that is already running.
    When a registration is accepted while a heartbeat interval is active,
    the handle of the old interval is overwritten: both intervals tick from
    then on, and [stopHeartbeats] clears the new one only. *)
Theorem accepted_registration_keeps_old_heartbeat (st : state) (id : nat)
    (req : request) (cb : callback) (connectionTimeout h : nat) (tm : timer)
    (body : string) :
  pending st !! id = Some (HttpCall req (ForRegister cb connectionTimeout)) →
  heartbeat st = Some h → timers st !! h = Some tm →
  h ≠ connectionTimeout → h ≠ next_timer st →
  let st' := step cfg (HttpReplied id (HttpResponse 204 body)) st in
  let stopped := run stopHeartbeats st' in
  heartbeat st' = Some (next_timer st) ∧
  timers st' !! h = Some tm ∧
  timers st' !! next_timer st = Some (heartbeat_timer cfg) ∧
  timers stopped !! next_timer st = None ∧
  timers stopped !! h = Some tm.
Proof.
  intros Hpending Hh Htm Hct Hnext st' stopped.
  destruct (register_accepted_starts_heartbeats cfg st id req cb connectionTimeout body
              Hpending) as (_ & Htimers & Hhb & _).
  fold st' in Htimers, Hhb.
  assert (Hstopped : timers stopped = delete (next_timer st) (timers st')).
  { subst stopped. unfold stopHeartbeats, gets, run, mbind, ST_bind. cbv beta iota.
    rewrite clear_timer_spec, Hhb. reflexivity. }
  rewrite Hstopped, Htimers.
  rewrite lookup_delete_eq, lookup_insert_eq.
  rewrite lookup_delete_ne, lookup_insert_ne, lookup_delete_ne by done.
  done.
Qed.

(** X20.  No answer to a registry fetch rotates the ring, sets or clears a timer,
    touches the heartbeat or starts another call: a failed fetch is reported
    and left to the next tick of the poll. *)
Theorem fetch_answer_starts_nothing (st : state) (id : nat) (req : request)
    (cb : callback) (r : http_reply) :
  pending st !! id = Some (HttpCall req (ForFetchRegistry cb)) →
  let st' := step cfg (HttpReplied id r) st in
  serviceUrl st' = serviceUrl st ∧
  timers st' = timers st ∧
  next_timer st' = next_timer st ∧
  heartbeat st' = heartbeat st ∧
  reregisterTimeout st' = reregisterTimeout st ∧
  instance_status st' = instance_status st ∧
  pending st' = delete id (pending st) ∧
  next_call st' = next_call st.
Proof.
  intros Hpending st'. subst st'. rewrite (fetchRegistry_answered cfg _ _ _ _ _ Hpending).
  pose (f := λ s : state, (serviceUrl s, timers s, next_timer s, heartbeat s,
                           reregisterTimeout s, instance_status s, pending s, next_call s)).
  assert (Hf : f (run (fetchRegistry_response cfg cb r) (answered id st)) = f (answered id st)).
  { apply keeps_run; [done|].
    apply (moves_fetchRegistry_response cfg f eq); try done; intros; congruence. }
  unfold f in Hf. by simplify_eq.
Qed.

End Ticks.

(** ** Endpoint discovery through DNS, and tokens *)

Section Discovery.
Context {P : Platform} (cfg : Config).

(** X21.  The first TXT answer: one of the names of its first record is chosen, at
    the index [Math.floor(Math.random() * length)] of the next draw, and
    looked up in turn; the draw being a double of [0, 1), the rounded product
    never points outside the record. *)
Theorem region_answer_picks_listed_name (st : state) (id : nat) (name : string)
    (k : caller) (first : list string) (others : list (list string)) :
  pending st !! id = Some (DnsCall name RegionLookup k) →
  first ≠ [] →
  is_double (random_source st (random_draws st)) →
  (0 <= random_source st (random_draws st))%Q →
  (random_source st (random_draws st) < 1)%Q →
  let st' := step cfg (DnsReplied id (DnsRecords (first :: others))) st in
  let product :=
    round_double (random_source st (random_draws st) * inject_Z (Z.of_nat (length first))) in
  ∃ chosen,
    chosen ∈ first ∧
    0 ≤ Qfloor product < Z.of_nat (length first) ∧
    first !! Z.to_nat (Qfloor product) = Some chosen ∧
    pending st' = <[next_call st := DnsCall ("txt." ++ chosen) HostLookup k]>
                    (delete id (pending st)) ∧
    random_draws st' = S (random_draws st) ∧
    serviceUrl st' = serviceUrl st ∧
    trace st' = trace st.
Proof.
  intros Hpending Hne Hdouble Hlo Hhi st' product.
  assert (Hlen : 0 < Z.of_nat (length first)) by (destruct first; [done | cbn; lia]).
  pose proof (floor_scaled_range _ _ Hdouble Hlo Hhi Hlen) as Hrange.
  change (floor_scaled _ _) with (Qfloor product) in Hrange.
  destruct (lookup_lt_is_Some_2 first (Z.to_nat (Qfloor product)))
    as [chosen Hchosen]; [lia|].
  exists chosen. split; [by eapply list_elem_of_lookup_2|]. split; [done|].
  split; [done|].
  subst st'. unfold step. rewrite Hpending.
  client_unfold. client_simpl. unfold floor_scaled. fold product. rewrite Hchosen. done.
Qed.

(** X22.  A first TXT answer without any record makes the handler throw: no second
    lookup and no request is started, and the caller of the lookup is never
    resumed. *)
Theorem region_answer_without_record_throws (st : state) (id : nat) (name : string)
    (k : caller) :
  pending st !! id = Some (DnsCall name RegionLookup k) →
  let st' := step cfg (DnsReplied id (DnsRecords [])) st in
  trace st' =
    Uncaught (TypeError "Cannot read property 'length' of undefined") :: trace st ∧
  pending st' = delete id (pending st) ∧
  next_call st' = next_call st ∧
  serviceUrl st' = serviceUrl st.
Proof.
  intros Hpending st'. subst st'. unfold step. rewrite Hpending. done.
Qed.

(** X23.  The second TXT answer: without a token provider, the request of a
    registry fetch goes to the current service URL with its host replaced by
    the first name of the answer, all records flattened; the ring keeps the
    configured URL. *)
Theorem host_answer_sets_request_host (st : state) (id : nat) (name u : string)
    (cb : callback) (results : list (list string)) :
  pending st !! id = Some (DnsCall name HostLookup (ForFetchRegistry cb)) →
  oAuth2Enabled cfg = false →
  ring_current (serviceUrl st) = Some u →
  let st' := step cfg (DnsReplied id (DnsRecords results)) st in
  pending st' =
    <[next_call st :=
        HttpCall {| method := GET;
                    url := url_format (with_host (url_parse u) (head (concat results)));
                    headers := Some {["Accept" := "application/json"]} |}
                 (ForFetchRegistry cb)]> (delete id (pending st)) ∧
  serviceUrl st' = serviceUrl st ∧
  invocations (trace st') = invocations (trace st).
Proof.
  intros Hpending Hoauth Hcurrent st'. subst st'. unfold step. rewrite Hpending.
  do 2 (client_unfold; cbv beta iota). client_simpl. rewrite Hcurrent, Hoauth.
  unfold setAuthorizationInHeader. cbn [truthy negb]. client_simpl. done.
Qed.

(** X24.  A token that was obtained is kept, and the request that waited for it
    carries it as a Bearer credential next to the headers it already had. *)
Theorem token_is_stored_and_sent (st : state) (id : nat) (cb : callback)
    (token : value) (access_token : string) :
  pending st !! id = Some (TokenCall CurrentUrl (ForFetchRegistry cb)) →
  get_prop token "access_token" = Ok (VStr access_token) →
  let st' := step cfg (TokenReplied id (TokenResult token)) st in
  oauth_token st' = token ∧
  pending st' =
    <[next_call st :=
        HttpCall {| method := GET;
                    url := js_str (ring_current (serviceUrl st));
                    headers := Some (<["Authorization" := "Bearer " ++ access_token]>
                                       {["Accept" := "application/json"]}) |}
                 (ForFetchRegistry cb)]> (delete id (pending st)) ∧
  invocations (trace st') = invocations (trace st).
Proof.
  intros Hpending Htoken st'. subst st'. unfold step. rewrite Hpending.
  assert (Htruthy : truthy token = true).
  { destruct token; try done; cbn in Htoken; by destruct (String.eqb _ _). }
  do 2 (client_unfold; cbv beta iota; client_simpl).
  unfold setAuthorizationInHeader.
  rewrite Htruthy. cbn [negb]. unfold mbind, res_bind. rewrite Htoken. client_simpl.
  done.
Qed.

End Discovery.

(** ** More runs of the sample client *)

(** The registration of [registering] was accepted: heartbeat timer 1. *)
Definition registered : state :=
  step (P := sample_platform) static_config
    (HttpReplied 0 (HttpResponse 204 "no content")) registering.

(** [deregister(cb3)] was called on the registered client: call 1. *)
Definition deregistering : state :=
  run (deregister (P := sample_platform) static_config (UserCallback 3)) registered.

(** [register(cb4)] was called again while the heartbeat runs: the POST is
    call 1, its watchdog timer 2. *)
Definition registering_again : state :=
  run (register (P := sample_platform) static_config (UserCallback 4)) registered.

Lemma register_accepted_starts_heartbeats_witness :
  trace registered = [Invoke 1 None; Emit "registered";
                      Log Info "registered with eureka: ";
                      Log Info "Attempting to register with eureka at 'http://a/'."] ∧
  timers registered = {[1%nat := heartbeat_timer static_config]} ∧
  heartbeat registered = Some 1%nat.
Proof.
  destruct (register_accepted_starts_heartbeats (P := sample_platform) static_config
              registering 0
              {| method := POST; url := "http://a/svc"; headers := None |}
              (UserCallback 1) 0 "no content")
    as (Htrace & Htimers & Hhb & _); [vm_compute; reflexivity|].
  fold registered in Htrace, Htimers, Hhb. rewrite Htrace, Htimers, Hhb.
  repeat split; vm_compute; reflexivity.
Defined.

Lemma deregister_outcomes_witness :
  let gone := step (P := sample_platform) static_config
                (HttpReplied 1 (HttpResponse 200 "ok")) deregistering in
  let refused := step (P := sample_platform) static_config
                   (HttpReplied 1 (HttpResponse 500 "busy")) deregistering in
  (invocations (trace gone) = [(3%nat, None); (1%nat, None)] ∧
   serviceUrl gone = sample_ring ∧ pending gone = ∅) ∧
  (invocations (trace refused) =
     [(3%nat, Some (Error "eureka deregistration FAILED: status: 500 body: busy"));
      (1%nat, None)] ∧
   serviceUrl refused = sample_ring ∧ timers refused = timers deregistering).
Proof.
  intros gone refused. split.
  - destruct (deregister_outcomes (P := sample_platform) static_config deregistering 1
                {| method := DELETE; url := "http://a/svc/host-1"; headers := None |}
                (UserCallback 3) (HttpResponse 200 "ok"))
      as (Htrace & Hring & _ & _ & _ & Hpending & _); [vm_compute; reflexivity|].
    fold gone in Htrace, Hring, Hpending. rewrite Htrace, Hring, Hpending.
    repeat split; vm_compute; reflexivity.
  - destruct (deregister_outcomes (P := sample_platform) static_config deregistering 1
                {| method := DELETE; url := "http://a/svc/host-1"; headers := None |}
                (UserCallback 3) (HttpResponse 500 "busy"))
      as (Htrace & Hring & Htimers & _); [vm_compute; reflexivity|].
    fold refused in Htrace, Hring, Htimers. rewrite Htrace, Hring, Htimers.
    repeat split; vm_compute; reflexivity.
Defined.

Lemma heartbeat_tick_sends_renewal_witness :
  let st' := step (P := sample_platform) static_config (TimerFired 1) registered in
  pending st' = {[1%nat := HttpCall {| method := PUT; url := "http://a/svc/host-1";
                                       headers := None |} ForRenew]} ∧
  timers st' = timers registered.
Proof.
  intros st'.
  destruct (heartbeat_tick_sends_renewal (P := sample_platform) static_config registered 1
              (heartbeat_timer static_config))
    as (Hpending & Htimers & _); try reflexivity.
  fold st' in Hpending, Htimers. rewrite Hpending, Htimers.
  split; vm_compute; reflexivity.
Defined.

Lemma watchdog_does_not_cancel_witness :
  let warned := step (P := sample_platform) static_config (TimerFired 0) registering in
  let st' := step (P := sample_platform) static_config
               (HttpReplied 0 (HttpResponse 204 "no content")) warned in
  pending warned = pending registering ∧
  heartbeat st' = Some 1%nat ∧
  invocations (trace st') = [(1%nat, None)].
Proof.
  intros warned st'.
  destruct (watchdog_does_not_cancel (P := sample_platform) static_config registering 0
              {| method := POST; url := "http://a/svc"; headers := None |}
              (UserCallback 1) 0 "no content")
    as (_ & Hpending & _ & Hhb & Hinv & _); try (vm_compute; reflexivity).
  fold warned in Hpending. fold warned st' in Hhb, Hinv.
  rewrite Hinv. split; [exact Hpending|]. split; [exact Hhb|]. reflexivity.
Defined.

Lemma accepted_registration_keeps_old_heartbeat_witness :
  let st' := step (P := sample_platform) static_config
               (HttpReplied 1 (HttpResponse 204 "no content")) registering_again in
  heartbeat registering_again = Some 1%nat ∧
  heartbeat st' = Some 3%nat ∧
  timers (run stopHeartbeats st') = {[1%nat := heartbeat_timer static_config]}.
Proof.
  intros st'.
  destruct (accepted_registration_keeps_old_heartbeat (P := sample_platform)
              static_config registering_again 1
              {| method := POST; url := "http://a/svc"; headers := None |}
              (UserCallback 4) 2 1 (heartbeat_timer static_config) "no content")
    as (Hhb & _); try (vm_compute; reflexivity); try (vm_compute; lia).
  fold st' in Hhb. split; [reflexivity|]. split; [exact Hhb|].
  vm_compute. reflexivity.
Defined.

Lemma fetch_answer_starts_nothing_witness :
  let st' := step (P := sample_platform) static_config
               (HttpReplied 0 (HttpError (Error "ECONNREFUSED"))) fetching in
  serviceUrl st' = sample_ring ∧ timers st' = ∅ ∧ pending st' = ∅.
Proof.
  intros st'.
  destruct (fetch_answer_starts_nothing (P := sample_platform) static_config fetching 0
              {| method := GET; url := "http://a/";
                 headers := Some {["Accept" := "application/json"]} |}
              (UserCallback 2) (HttpError (Error "ECONNREFUSED")))
    as (Hring & Htimers & _ & _ & _ & _ & Hpending & _); [vm_compute; reflexivity|].
  fold st' in Hring, Htimers, Hpending. rewrite Hring, Htimers, Hpending.
  repeat split; vm_compute; reflexivity.
Defined.

(** [fetchRegistry(cb1)] with DNS discovery for region [r1]: the first TXT
    lookup is call 0. *)
Definition resolving_region : state :=
  run (fetchRegistry (P := sample_platform) dns_region_config (UserCallback 1))
    discovery_client.

(** The first lookup was answered with two names: the draw 1/2 chose the
    second, whose lookup is call 1. *)
Definition resolving_host : state :=
  step (P := sample_platform) dns_region_config
    (DnsReplied 0 (DnsRecords [["r1.example"; "r2.example"]])) resolving_region.

(** The same first lookup on a client whose next draw is
    0.3333333333333333: with three names the product is below 1 and rounds
    to the double 1. *)
Definition resolving_region_of_three : state :=
  run (fetchRegistry (P := sample_platform) dns_region_config (UserCallback 1))
    (initial_state [Some "eureka.example/"; Some "backup.example/"]
       (λ _, round_double (3333333333333333 # 10000000000000000))).

Lemma region_answer_picks_listed_name_witness :
  pending resolving_host =
    {[1%nat := DnsCall "txt.r2.example" HostLookup (ForFetchRegistry (UserCallback 1))]} ∧
  (round_double (3333333333333333 # 10000000000000000) * inject_Z 3 < inject_Z 1)%Q ∧
  pending (step (P := sample_platform) dns_region_config
             (DnsReplied 0 (DnsRecords [["r1.example"; "r2.example"; "r3.example"]]))
             resolving_region_of_three) =
    {[1%nat := DnsCall "txt.r2.example" HostLookup (ForFetchRegistry (UserCallback 1))]}.
Proof.
  destruct (region_answer_picks_listed_name (P := sample_platform) dns_region_config
              resolving_region 0 "txt.r1.eureka.example/"
              (ForFetchRegistry (UserCallback 1)) ["r1.example"; "r2.example"] [])
    as (chosen & _ & _ & Hchosen & Hpending & _);
    [vm_compute; reflexivity | done | vm_compute; reflexivity | vm_compute; discriminate
    | vm_compute; reflexivity |].
  destruct (region_answer_picks_listed_name (P := sample_platform) dns_region_config
              resolving_region_of_three 0 "txt.r1.eureka.example/"
              (ForFetchRegistry (UserCallback 1))
              ["r1.example"; "r2.example"; "r3.example"] [])
    as (second & _ & _ & Hsecond & Hpending' & _);
    [vm_compute; reflexivity | done | vm_compute; reflexivity | vm_compute; discriminate
    | vm_compute; reflexivity |].
  vm_compute in Hchosen. injection Hchosen as <-.
  vm_compute in Hsecond. injection Hsecond as <-.
  fold resolving_host in Hpending. rewrite Hpending, Hpending'.
  split; [vm_compute; reflexivity|]. split; vm_compute; reflexivity.
Defined.

Lemma region_answer_without_record_throws_witness :
  let st' := step (P := sample_platform) dns_region_config
               (DnsReplied 0 (DnsRecords [])) resolving_region in
  pending st' = ∅ ∧ invocations (trace st') = [].
Proof.
  intros st'.
  destruct (region_answer_without_record_throws (P := sample_platform)
              dns_region_config resolving_region 0 "txt.r1.eureka.example/"
              (ForFetchRegistry (UserCallback 1)))
    as (Htrace & Hpending & _); [vm_compute; reflexivity|].
  fold st' in Htrace, Hpending. rewrite Htrace, Hpending.
  split; vm_compute; reflexivity.
Defined.

Lemma host_answer_sets_request_host_witness :
  let st' := step (P := sample_platform) dns_region_config
               (DnsReplied 1 (DnsRecords [["host1"; "host2"]; ["host3"]])) resolving_host in
  pending st' = {[2%nat := HttpCall (registry_request "host1")
                             (ForFetchRegistry (UserCallback 1))]} ∧
  serviceUrl st' = [Some "eureka.example/"; Some "backup.example/"].
Proof.
  intros st'.
  destruct (host_answer_sets_request_host (P := sample_platform) dns_region_config
              resolving_host 1 "txt.r2.example" "eureka.example/" (UserCallback 1)
              [["host1"; "host2"]; ["host3"]])
    as (Hpending & Hring & _); try (vm_compute; reflexivity).
  fold st' in Hpending, Hring. rewrite Hpending, Hring.
  split; vm_compute; reflexivity.
Defined.

(** [fetchRegistry(cb1)] with a token provider: the token request is call 0. *)
Definition asking_token : state :=
  run (fetchRegistry (P := sample_platform) oauth_config (UserCallback 1)) token_client.

Lemma token_is_stored_and_sent_witness :
  let token := VObj [("access_token", VStr "t1"); ("token_type", VStr "bearer")] in
  let st' := step (P := sample_platform) oauth_config
               (TokenReplied 0 (TokenResult token)) asking_token in
  oauth_token st' = token ∧
  pending st' =
    {[1%nat := HttpCall {| method := GET; url := "eureka.example/";
                           headers := Some {["Authorization" := "Bearer t1";
                                             "Accept" := "application/json"]} |}
                 (ForFetchRegistry (UserCallback 1))]}.
Proof.
  intros token st'.
  destruct (token_is_stored_and_sent (P := sample_platform) oauth_config asking_token 0
              (UserCallback 1) token "t1")
    as (Htoken & Hpending & _); try (vm_compute; reflexivity).
  fold st' in Htoken, Hpending. rewrite Htoken, Hpending.
  split; vm_compute; reflexivity.
Defined.
